(** * open-elevation: the tile-resolution engine of [gdal_interfaces.py]

    A shallow embedding of [GDALInterface] (one raster tile) and
    [GDALTileInterface] (catalog, spatial index and the cache of open tiles),
    with the properties of the engine stated and proved over it.

    Conventions of the embedding.
    - Python floats are exact rationals ([Q]); [int(x)] truncates toward zero;
      float division raises [ZeroDivisionError] exactly on a zero divisor.
    - A raised exception is a value [Raise e]; the state reached when it was
      raised is kept, as in Python.
    - [GDALInterface] objects live in a heap ([list], allocation appends) and
      are named by their position, so that two references to one object see
      each other's updates ([close], the lazy [points_array]).
    - The osgeo, numpy, rtree and json libraries are modelled by what the
      code observes of them, each documented where it is defined. *)

From Stdlib Require Import ZArith QArith Qfield Lia String Ascii.
From stdpp Require Import base option list gmap strings fin_maps.

Local Open Scope Z_scope.

(** ** Exceptions and results *)

Inductive exn : Type :=
| Exception (msg : string)
| ZeroDivisionError
| AttributeError
| TypeError
| IndexError
| KeyError
| ValueError
| OSError
| RTreeError
| SystemError.

Inductive result (A : Type) : Type :=
| Ok (a : A)
| Raise (e : exn).
Arguments Ok {A} a.
Arguments Raise {A} e.

Definition is_ok {A} (r : result A) : bool :=
  match r with Ok _ => true | Raise _ => false end.

(** Computations over a mutable state [S] that may raise. *)
Definition M (S A : Type) : Type := S -> result A * S.

Definition ret {S A} (a : A) : M S A := fun s => (Ok a, s).
Definition raise {S A} (e : exn) : M S A := fun s => (Raise e, s).
Definition bind {S A B} (c : M S A) (k : A -> M S B) : M S B :=
  fun s => match c s with
           | (Ok a, s') => k a s'
           | (Raise e, s') => (Raise e, s')
           end.
Definition get {S} : M S S := fun s => (Ok s, s).
Definition put {S} (s : S) : M S unit := fun _ => (Ok tt, s).
Definition lift {S A} (r : result A) : M S A := fun s => (r, s).

Notation "'let*' x ':=' c 'in' k" := (bind c (fun x => k))
  (at level 10, x name, c at level 100, k at level 200).
Notation "c1 ';;' c2" := (bind c1 (fun _ => c2))
  (at level 100, c2 at level 200, right associativity).

(** [for x in l: body(x)] *)
Fixpoint for_each {S A} (l : list A) (body : A -> M S unit) : M S unit :=
  match l with
  | [] => ret tt
  | x :: l' => body x ;; for_each l' body
  end.

(** A loop that threads a local variable. *)
Fixpoint for_acc {S A B} (l : list A) (acc : B) (body : B -> A -> M S B)
  : M S B :=
  match l with
  | [] => ret acc
  | x :: l' => let* acc' := body acc x in for_acc l' acc' body
  end.

(** ** Numbers *)

(** [int(x)] on a float: truncation toward zero. *)
Definition py_int (x : Q) : Z := Z.quot (Qnum x) (Z.pos (Qden x)).

(** [x / y] on floats. *)
Definition py_div (x y : Q) : result Q :=
  if Qeq_bool y 0 then Raise ZeroDivisionError else Ok (x / y)%Q.

(** ** numpy arrays of band samples

    A 2-D array is the list of its rows.  [a[i]] on an axis of length [n]
    accepts [-n <= i < n], a negative [i] counting from the end, and raises
    [IndexError] otherwise. *)
Definition ndarray : Type := list (list Z).

Definition axis_getitem {A} (l : list A) (i : Z) : result A :=
  let n := Z.of_nat (length l) in
  let j := if i <? 0 then i + n else i in
  if (j <? 0) || (n <=? j) then Raise IndexError
  else match l !! Z.to_nat j with
       | Some x => Ok x
       | None => Raise IndexError
       end.

(** [a[ylin, xpix]] *)
Definition ndarray_getitem (a : ndarray) (ylin xpix : Z) : result Z :=
  match axis_getitem a ylin with
  | Ok row => axis_getitem row xpix
  | Raise e => Raise e
  end.

(** [ndarray.astype('int16')]: wrap into the signed 16-bit range. *)
Definition int16 (v : Z) : Z := (v + 32768) mod 65536 - 32768.
Definition astype_int16 (a : ndarray) : ndarray := map (map int16) a.

(** ** The raster library (osgeo.gdal, osgeo.osr) *)

(** The six coefficients [gt[0] .. gt[5]]. *)
Record GeoTransform : Type := GT {
  gt0 : Q; gt1 : Q; gt2 : Q; gt3 : Q; gt4 : Q; gt5 : Q
}.

(** An opened raster, as far as the code reads it.
    [TransformPoint lon lat] stands for
    [osr.CoordinateTransformation(WGS84, raster SRS).TransformPoint(lon, lat, 0)]
    without its third component; [ReadAsArray] is band 1, [None] when the
    band cannot be read. *)
Record Dataset : Type := {
  RasterXSize : Z;
  RasterYSize : Z;
  GetGeoTransform : GeoTransform;
  TransformPoint : Q -> Q -> result (Q * Q);
  ReadAsArray : option ndarray
}.

(** What the process sees of the outside: [gdal.Open] ([None] for a file that
    is missing or not a raster), [os.listdir] and [os.path.isfile]. *)
Record World : Type := {
  gdal_Open : string -> option Dataset;
  listdir : string -> list string;
  isfile : string -> bool
}.

(** ** GDALInterface *)

Definition SEA_LEVEL : Z := 0.

(** [points_array] is a [@lazy] attribute: [None] until first read, then the
    value it was given (itself [None] when the band could not be read, or
    after [load_all]).  [cache_array] exists only after [load_all]. *)
Record GDALInterface : Type := {
  tif_path : option string;
  src : option Dataset;
  coordinate_transform : option (Q -> Q -> result (Q * Q));
  geo_transform : GeoTransform;
  geo_transform_inv : GeoTransform;
  points_array : option (option ndarray);
  cache_array : option ndarray
}.

Definition set_src (v : option Dataset) (o : GDALInterface) : GDALInterface :=
  {| tif_path := tif_path o; src := v;
     coordinate_transform := coordinate_transform o;
     geo_transform := geo_transform o;
     geo_transform_inv := geo_transform_inv o;
     points_array := points_array o; cache_array := cache_array o |}.

Definition set_points_array (v : option (option ndarray)) (o : GDALInterface)
  : GDALInterface :=
  {| tif_path := tif_path o; src := src o;
     coordinate_transform := coordinate_transform o;
     geo_transform := geo_transform o;
     geo_transform_inv := geo_transform_inv o;
     points_array := v; cache_array := cache_array o |}.

Definition dquote : string := String (ascii_of_nat 34) EmptyString.

Definition load_error (path : string) : exn :=
  Exception ("Could not load GDAL file " +:+ dquote +:+ path +:+ dquote).

(** [loadMetadata], on the object [__init__] has just created. *)
Definition loadMetadata (w : World) (path : string) : result GDALInterface :=
  match gdal_Open w path with
  | None => Raise (load_error path)
  | Some ds =>
      let gt := GetGeoTransform ds in
      let dev := (gt1 gt * gt5 gt - gt2 gt * gt4 gt)%Q in
      match py_div (gt5 gt) dev with Raise e => Raise e | Ok i1 =>
      match py_div (- gt2 gt)%Q dev with Raise e => Raise e | Ok i2 =>
      match py_div (- gt4 gt)%Q dev with Raise e => Raise e | Ok i4 =>
      match py_div (gt1 gt) dev with Raise e => Raise e | Ok i5 =>
        Ok {| tif_path := Some path;
              src := Some ds;
              coordinate_transform := Some (TransformPoint ds);
              geo_transform := gt;
              geo_transform_inv := GT (gt0 gt) i1 i2 (gt3 gt) i4 i5;
              points_array := None;
              cache_array := None |}
      end end end end
  end.

Definition close (o : GDALInterface) : GDALInterface := set_src None o.

(** [load_all]: materialise band 1 as int16, then drop everything else. *)
Definition load_all (o : GDALInterface) : result GDALInterface :=
  match src o with
  | None => Raise AttributeError
  | Some ds =>
      match ReadAsArray ds with
      | None => Raise AttributeError
      | Some a =>
          Ok {| tif_path := None;
                src := None;
                coordinate_transform := None;
                geo_transform := geo_transform o;
                geo_transform_inv := geo_transform_inv o;
                points_array := Some None;
                cache_array := Some (astype_int16 a) |}
      end
  end.

(** [GDALInterface(tif_path, cache_all)] *)
Definition GDALInterface_init (w : World) (path : string) (cache_all : bool)
  : result GDALInterface :=
  match loadMetadata w path with
  | Raise e => Raise e
  | Ok o => if cache_all then load_all o else Ok o
  end.

Record CornerCoords : Type := {
  TOP_LEFT : Q * Q;
  TOP_RIGHT : Q * Q;
  BOTTOM_LEFT : Q * Q;
  BOTTOM_RIGHT : Q * Q
}.

Definition get_corner_coords (o : GDALInterface) : result CornerCoords :=
  let gt := geo_transform o in
  let ulx := gt0 gt in let xres := gt1 gt in
  let uly := gt3 gt in let yres := gt5 gt in
  match src o with
  | None => Raise AttributeError
  | Some ds =>
      let lrx := (ulx + inject_Z (RasterXSize ds) * xres)%Q in
      let lry := (uly + inject_Z (RasterYSize ds) * yres)%Q in
      Ok {| TOP_LEFT := (ulx, uly);
            TOP_RIGHT := (lrx, uly);
            BOTTOM_LEFT := (ulx, lry);
            BOTTOM_RIGHT := (lrx, lry) |}
  end.

(** Reading the lazy attribute [self.points_array]. *)
Definition get_points_array : M GDALInterface (option ndarray) :=
  fun self =>
    match points_array self with
    | Some v => (Ok v, self)
    | None =>
        match src self with
        | None => (Raise AttributeError, self)
        | Some ds =>
            (Ok (ReadAsArray ds), set_points_array (Some (ReadAsArray ds)) self)
        end
    end.

(** [a[ylin, xpix]] where [a] may be [None]. *)
Definition getitem2 (a : option ndarray) (ylin xpix : Z) : result Z :=
  match a with
  | None => Raise TypeError
  | Some arr => ndarray_getitem arr ylin xpix
  end.

(** The body of the [try] of [lookup]. *)
Definition lookup_try (lat lon : Q) : M GDALInterface Z :=
  let* self := get in
  let* ct := lift (match coordinate_transform self with
                   | None => Raise AttributeError
                   | Some t => Ok t
                   end) in
  let* geo := lift (ct lon lat) in
  let xgeo := fst geo in
  let ygeo := snd geo in
  let inv := geo_transform_inv self in
  let u := (xgeo - gt0 inv)%Q in
  let v := (ygeo - gt3 inv)%Q in
  let xpix := py_int (gt1 inv * u + gt2 inv * v)%Q in
  let ylin := py_int (gt4 inv * u + gt5 inv * v)%Q in
  let* arr := get_points_array in
  let* v := lift (getitem2 arr ylin xpix) in
  ret (if v =? -32768 then SEA_LEVEL else v).

(** [GDALInterface.lookup]: the value and the object as the call leaves it. *)
Definition GDALInterface_lookup (lat lon : Q) (self : GDALInterface) : Z * GDALInterface :=
  match lookup_try lat lon self with
  | (Ok v, self') => (v, self')
  | (Raise _, self') => (SEA_LEVEL, self')
  end.

Definition lookup_cache_try (lat lon : Q) (self : GDALInterface) : result Z :=
  let xgeo := lon in
  let ygeo := lat in
  let inv := geo_transform_inv self in
  let u := (xgeo - gt0 inv)%Q in
  let v := (ygeo - gt3 inv)%Q in
  let xpix := py_int (gt1 inv * u + gt2 inv * v)%Q in
  let ylin := py_int (gt4 inv * u + gt5 inv * v)%Q in
  match cache_array self with
  | None => Raise AttributeError
  | Some arr =>
      match ndarray_getitem arr ylin xpix with
      | Raise e => Raise e
      | Ok v => Ok (if v =? -32768 then SEA_LEVEL else v)
      end
  end.

Definition GDALInterface_lookup_cache (lat lon : Q) (self : GDALInterface) : Z :=
  match lookup_cache_try lat lon self with
  | Ok v => v
  | Raise _ => SEA_LEVEL
  end.

(** ** The JSON summary

    [json.dump] and [json.load] are modelled on the document tree; the text in
    between is the json module's own business. *)
#[local] Unset Elimination Schemes.
Inductive json : Type :=
| JNull
| JNumber (x : Q)
| JString (s : string)
| JArray (items : list json)
| JObject (members : list (string * json)).
#[local] Set Elimination Schemes.

(** One record of the catalog: a Python dict in which each of the four keys
    may be absent.  ['coords'] is a tuple when built and a list when loaded;
    the code only indexes it.  ['interface'] is a reference into the heap. *)
Record CatalogEntry : Type := {
  e_file : option string;
  e_coords : option (list Q);
  e_index_id : option Z;
  e_interface : option nat
}.

Definition set_e_index_id (v : option Z) (e : CatalogEntry) : CatalogEntry :=
  {| e_file := e_file e; e_coords := e_coords e;
     e_index_id := v; e_interface := e_interface e |}.
Definition set_e_interface (v : option nat) (e : CatalogEntry) : CatalogEntry :=
  {| e_file := e_file e; e_coords := e_coords e;
     e_index_id := e_index_id e; e_interface := v |}.
Definition set_e_file (v : option string) (e : CatalogEntry) : CatalogEntry :=
  {| e_file := v; e_coords := e_coords e;
     e_index_id := e_index_id e; e_interface := e_interface e |}.
Definition set_e_coords (v : option (list Q)) (e : CatalogEntry) : CatalogEntry :=
  {| e_file := e_file e; e_coords := v;
     e_index_id := e_index_id e; e_interface := e_interface e |}.

Definition opt_member {A} (k : string) (f : A -> json) (v : option A)
  : list (string * json) :=
  match v with Some a => [(k, f a)] | None => [] end.

(** [json.dump] of one record; a live [GDALInterface] is not serializable. *)
Definition json_dump_entry (e : CatalogEntry) : result json :=
  match e_interface e with
  | Some _ => Raise TypeError
  | None =>
      Ok (JObject (opt_member "file" JString (e_file e)
                   ++ opt_member "coords"
                        (fun cs => JArray (map JNumber cs)) (e_coords e)
                   ++ opt_member "index_id"
                        (fun i => JNumber (inject_Z i)) (e_index_id e)))
  end.

Fixpoint json_dump_entries (l : list CatalogEntry) : result (list json) :=
  match l with
  | [] => Ok []
  | e :: l' =>
      match json_dump_entry e with
      | Raise x => Raise x
      | Ok j =>
          match json_dump_entries l' with
          | Raise x => Raise x
          | Ok js => Ok (j :: js)
          end
      end
  end.

Definition json_dump (l : list CatalogEntry) : result json :=
  match json_dump_entries l with
  | Raise x => Raise x
  | Ok js => Ok (JArray js)
  end.

(** The value of key [k] in a JSON object (the last one, if repeated). *)
Fixpoint member (k : string) (ms : list (string * json)) : option json :=
  match ms with
  | [] => None
  | (k', v) :: ms' =>
      match member k ms' with
      | Some v' => Some v'
      | None => if String.eqb k k' then Some v else None
      end
  end.

Fixpoint numbers (js : list json) : option (list Q) :=
  match js with
  | [] => Some []
  | JNumber x :: js' =>
      match numbers js' with Some xs => Some (x :: xs) | None => None end
  | _ => None
  end.

(** [json.load] of one record, read back as the dict the code will index.
    A member of another JSON type than [create_summary_json] writes is read
    as an absent key. *)
Definition json_load_entry (j : json) : CatalogEntry :=
  match j with
  | JObject ms =>
      {| e_file := match member "file" ms with
                   | Some (JString s) => Some s
                   | _ => None
                   end;
         e_coords := match member "coords" ms with
                     | Some (JArray xs) => numbers xs
                     | _ => None
                     end;
         e_index_id := match member "index_id" ms with
                       | Some (JNumber x) => Some (py_int x)
                       | _ => None
                       end;
         e_interface := None |}
  | _ => {| e_file := None; e_coords := None;
            e_index_id := None; e_interface := None |}
  end.

Definition json_load (doc : json) : result (list CatalogEntry) :=
  match doc with
  | JArray js => Ok (map json_load_entry js)
  | _ => Raise TypeError
  end.

(** ** The spatial index (rtree)

    An item is its id, its box [(left, bottom, right, top)] and the object
    stored with it.  rtree pickles that object on insertion, so the index
    holds a copy taken at that moment ([o_interface] is the copied object, not
    a reference).  [insert] refuses a box whose minimum exceeds its maximum
    ([RTreeError]).  [intersection] with a point returns the items whose
    closed box contains it; the order is the library's, here insertion
    order. *)
Record IndexObject : Type := {
  o_file : option string;
  o_coords : option (list Q);
  o_index_id : option Z;
  o_interface : option GDALInterface
}.

Record IndexItem : Type := {
  item_id : Z;
  item_bounds : Q * Q * Q * Q;
  item_object : IndexObject
}.

Definition bounds_ok (b : Q * Q * Q * Q) : bool :=
  let '(left_, bottom, right_, top) := b in
  Qle_bool left_ right_ && Qle_bool bottom top.

Definition contains (b : Q * Q * Q * Q) (x y : Q) : bool :=
  let '(left_, bottom, right_, top) := b in
  Qle_bool left_ x && Qle_bool x right_ && Qle_bool bottom y && Qle_bool y top.

Definition index_insert (id : Z) (b : Q * Q * Q * Q) (obj : IndexObject)
  (idx : list IndexItem) : result (list IndexItem) :=
  if bounds_ok b
  then Ok (idx ++ [{| item_id := id; item_bounds := b; item_object := obj |}])
  else Raise RTreeError.

Definition index_intersection (idx : list IndexItem) (x y : Q)
  : list IndexItem :=
  List.filter (fun it => contains (item_bounds it) x y) idx.

(** ** GDALTileInterface *)

Record GDALTileInterface : Type := {
  tiles_folder : string;
  summary_file : string;
  index : list IndexItem;
  cached_open_interfaces : list string;
  cached_open_interfaces_dict : gmap string nat;
  open_interfaces_size : Z;
  cache_all : bool;
  all_coords : list CatalogEntry
}.

(** The process: the heap of [GDALInterface] objects, the one
    [GDALTileInterface] ([self]) and the summary files on disk. *)
Record State : Type := {
  heap : list GDALInterface;
  self : GDALTileInterface;
  disk : gmap string json
}.

Definition set_index (v : list IndexItem) (s : GDALTileInterface)
  : GDALTileInterface :=
  {| tiles_folder := tiles_folder s; summary_file := summary_file s;
     index := v;
     cached_open_interfaces := cached_open_interfaces s;
     cached_open_interfaces_dict := cached_open_interfaces_dict s;
     open_interfaces_size := open_interfaces_size s;
     cache_all := cache_all s; all_coords := all_coords s |}.

Definition set_cached_open_interfaces (v : list string) (s : GDALTileInterface)
  : GDALTileInterface :=
  {| tiles_folder := tiles_folder s; summary_file := summary_file s;
     index := index s;
     cached_open_interfaces := v;
     cached_open_interfaces_dict := cached_open_interfaces_dict s;
     open_interfaces_size := open_interfaces_size s;
     cache_all := cache_all s; all_coords := all_coords s |}.

Definition set_cached_open_interfaces_dict (v : gmap string nat)
  (s : GDALTileInterface) : GDALTileInterface :=
  {| tiles_folder := tiles_folder s; summary_file := summary_file s;
     index := index s;
     cached_open_interfaces := cached_open_interfaces s;
     cached_open_interfaces_dict := v;
     open_interfaces_size := open_interfaces_size s;
     cache_all := cache_all s; all_coords := all_coords s |}.

Definition set_all_coords (v : list CatalogEntry) (s : GDALTileInterface)
  : GDALTileInterface :=
  {| tiles_folder := tiles_folder s; summary_file := summary_file s;
     index := index s;
     cached_open_interfaces := cached_open_interfaces s;
     cached_open_interfaces_dict := cached_open_interfaces_dict s;
     open_interfaces_size := open_interfaces_size s;
     cache_all := cache_all s; all_coords := v |}.

Definition set_heap (v : list GDALInterface) (st : State) : State :=
  {| heap := v; self := self st; disk := disk st |}.
Definition set_self (v : GDALTileInterface) (st : State) : State :=
  {| heap := heap st; self := v; disk := disk st |}.
Definition set_disk (v : gmap string json) (st : State) : State :=
  {| heap := heap st; self := self st; disk := v |}.

Definition modify_self (f : GDALTileInterface -> GDALTileInterface)
  : M State unit :=
  fun st => (Ok tt, set_self (f (self st)) st).

(** A new object: its reference is the next free position of the heap. *)
Definition alloc (o : GDALInterface) : M State nat :=
  fun st => (Ok (length (heap st)), set_heap (heap st ++ [o]) st).

(** Following a reference.  Python has no dangling references; the model
    raises [SystemError] for one, and no state built by the operations below
    contains any. *)
Definition deref (r : nat) : M State GDALInterface :=
  fun st => match heap st !! r with
            | Some o => (Ok o, st)
            | None => (Raise SystemError, st)
            end.

Definition store (r : nat) (o : GDALInterface) : M State unit :=
  fun st => (Ok tt, set_heap (<[r := o]> (heap st)) st).

(** [GDALTileInterface(tiles_folder, summary_file, open_interfaces_size,
    cache_all)] in a fresh process. *)
Definition GDALTileInterface_init (folder summary : string) (size : Z)
  (cache : bool) : GDALTileInterface :=
  {| tiles_folder := folder; summary_file := summary;
     index := [];
     cached_open_interfaces := [];
     cached_open_interfaces_dict := ∅;
     open_interfaces_size := size;
     cache_all := cache; all_coords := [] |}.

Definition init_state (folder summary : string) (size : Z) (cache : bool)
  (files : gmap string json) : State :=
  {| heap := []; self := GDALTileInterface_init folder summary size cache;
     disk := files |}.

(** [l.remove(x)]: drops the first occurrence, [ValueError] if there is none. *)
Fixpoint list_remove (x : string) (l : list string) : result (list string) :=
  match l with
  | [] => Raise ValueError
  | y :: l' =>
      if decide (x = y) then Ok l'
      else match list_remove x l' with
           | Ok r => Ok (y :: r)
           | Raise e => Raise e
           end
  end.

(** [self.cached_open_interfaces.pop(0)] *)
Definition pop0 : M State string :=
  fun st => match cached_open_interfaces (self st) with
            | [] => (Raise IndexError, st)
            | p :: l => (Ok p, set_self (set_cached_open_interfaces l (self st)) st)
            end.

(** [self.cached_open_interfaces_dict[k]] *)
Definition dict_getitem (k : string) : M State nat :=
  fun st => match cached_open_interfaces_dict (self st) !! k with
            | Some r => (Ok r, st)
            | None => (Raise KeyError, st)
            end.

Definition _open_gdal_interface (w : World) (path : string) : M State nat :=
  let* st := get in
  match cached_open_interfaces_dict (self st) !! path with
  | Some interface =>
      let* l := lift (list_remove path (cached_open_interfaces (self st))) in
      modify_self (set_cached_open_interfaces (l ++ [path])) ;;
      ret interface
  | None =>
      let* o := lift (GDALInterface_init w path false) in
      let* interface := alloc o in
      modify_self (fun s =>
        set_cached_open_interfaces (cached_open_interfaces s ++ [path]) s) ;;
      modify_self (fun s =>
        set_cached_open_interfaces_dict
          (<[path := interface]> (cached_open_interfaces_dict s)) s) ;;
      let* st := get in
      (if Z.of_nat (length (cached_open_interfaces (self st)))
          >? open_interfaces_size (self st)
       then
         let* last_interface_path := pop0 in
         let* last_interface := dict_getitem last_interface_path in
         let* o := deref last_interface in
         store last_interface (close o) ;;
         modify_self (fun s =>
           set_cached_open_interfaces_dict
             (delete last_interface_path (cached_open_interfaces_dict s)) s)
       else ret tt) ;;
      ret interface
  end.

(** ** Files of the tiles folder *)

(** [s.endswith(suffix)] *)
Definition endswith (s suffix : string) : bool :=
  let n := String.length s in
  let k := String.length suffix in
  (k <=? n)%nat && String.eqb (substring (n - k) k s) suffix.

(** [os.path.join(a, b)] on POSIX paths. *)
Definition join (a b : string) : string :=
  if String.prefix "/" b then b
  else if String.eqb a EmptyString || endswith a "/" then a +:+ b
  else a +:+ "/" +:+ b.

Definition _all_files (w : World) (self : GDALTileInterface) : list string :=
  List.filter
    (fun f => isfile w (join (tiles_folder self) f) && endswith f ".tif")
    (listdir w (tiles_folder self)).

Definition has_summary_json (st : State) : bool :=
  bool_decide (is_Some (disk st !! summary_file (self st))).

(** ** Building the index *)

(** [e[k]] on a dict key that may be absent. *)
Definition key {A} (v : option A) : result A :=
  match v with Some a => Ok a | None => Raise KeyError end.

(** [l[i]] on a Python list or tuple, [i] a literal index. *)
Definition item {A} (l : list A) (i : nat) : result A :=
  match l !! i with Some a => Ok a | None => Raise IndexError end.

(** The entry [self.all_coords[k]] the loop is at, and updates of it. *)
Definition entry (k : nat) : M State CatalogEntry :=
  fun st => match all_coords (self st) !! k with
            | Some e => (Ok e, st)
            | None => (Raise IndexError, st)
            end.

Definition modify_entry (k : nat) (f : CatalogEntry -> CatalogEntry)
  : M State unit :=
  modify_self (fun s =>
    set_all_coords (alter f k (all_coords s)) s).

(** The copy of [e] that [pickle] stores in the index. *)
Definition pickle (h : list GDALInterface) (e : CatalogEntry) : IndexObject :=
  {| o_file := e_file e; o_coords := e_coords e;
     o_index_id := e_index_id e;
     o_interface := match e_interface e with
                    | Some r => h !! r
                    | None => None
                    end |}.

Definition build_index_body (w : World) (index_id : Z) (k : nat)
  : M State unit :=
  modify_entry k (set_e_index_id (Some index_id)) ;;
  let* e := entry k in
  let* coords0 := lift (key (e_coords e)) in
  let* left_ := lift (item coords0 0) in
  let* coords2 := lift (key (e_coords e)) in
  let* bottom := lift (item coords2 2) in
  let* coords1 := lift (key (e_coords e)) in
  let* right_ := lift (item coords1 1) in
  let* coords3 := lift (key (e_coords e)) in
  let* top := lift (item coords3 3) in
  let* st := get in
  (if cache_all (self st) then
     let* file := lift (key (e_file e)) in
     let* o := lift (GDALInterface_init w file true) in
     let* interface := alloc o in
     modify_entry k (set_e_interface (Some interface)) ;;
     modify_entry k (set_e_file None) ;;
     modify_entry k (set_e_index_id None) ;;
     modify_entry k (set_e_coords None)
   else ret tt) ;;
  let* e := entry k in
  let* st := get in
  let* idx := lift (index_insert index_id (left_, bottom, right_, top)
                      (pickle (heap st) e) (index (self st))) in
  modify_self (set_index idx).

Definition _build_index (w : World) : M State unit :=
  let index_id := 1 in
  let* st := get in
  for_each (seq 0 (length (all_coords (self st))))
           (build_index_body w index_id).

(** ** The summary *)

Definition write_file (path : string) (doc : json) : M State unit :=
  fun st => (Ok tt, set_disk (<[path := doc]> (disk st)) st).

Definition read_file (path : string) : M State json :=
  fun st => match disk st !! path with
            | Some doc => (Ok doc, st)
            | None => (Raise OSError, st)
            end.

Definition new_entry (file : string) (lmin lmax lngmin lngmax : Q)
  : CatalogEntry :=
  {| e_file := Some file;
     e_coords := Some [lmin; lmax; lngmin; lngmax];
     e_index_id := None; e_interface := None |}.

(** One round of the loop of [create_summary_json]; the progress messages,
    and the [getsize] they format, are left out. *)
Definition summary_body (w : World) (folder : string)
  (all_coords : list CatalogEntry) (file : string)
  : M State (list CatalogEntry) :=
  let full_path := join folder file in
  let* i := _open_gdal_interface w full_path in
  let* o := deref i in
  let* coords := lift (get_corner_coords o) in
  let lmin := snd (BOTTOM_RIGHT coords) in
  let lmax := snd (TOP_RIGHT coords) in
  let lngmin := fst (TOP_LEFT coords) in
  let lngmax := fst (TOP_RIGHT coords) in
  ret (all_coords ++ [new_entry full_path lmin lmax lngmin lngmax]).

(** The catalog scan of [create_summary_json], up to [json.dump]. *)
Definition scan_tiles (w : World) : M State (list CatalogEntry) :=
  let* st := get in
  for_acc (_all_files w (self st)) []
          (summary_body w (tiles_folder (self st))).

(** [create_summary_json]: scan, write the summary, keep the catalog, build
    the index. *)
Definition create_summary_json (w : World) : M State unit :=
  let* all_coords := scan_tiles w in
  let* st := get in
  let* doc := lift (json_dump all_coords) in
  write_file (summary_file (self st)) doc ;;
  modify_self (set_all_coords all_coords) ;;
  _build_index w.

(** [read_summary_json]: [OSError] when the summary file is missing. *)
Definition read_summary_json (w : World) : M State unit :=
  let* st := get in
  let* doc := read_file (summary_file (self st)) in
  let* l := lift (json_load doc) in
  modify_self (set_all_coords l) ;;
  _build_index w.

(** ** The public lookup *)

(** [gdal_interface.lookup(lat, lng)] on the object behind a reference. *)
Definition call_lookup (r : nat) (lat lng : Q) : M State Z :=
  let* o := deref r in
  let res := GDALInterface_lookup lat lng o in
  store r (snd res) ;;
  ret (fst res).

(** [GDALTileInterface.lookup].  [first] is [nearest[0]], [coords] its
    stored object; [int(v)] of a sample is [v].  There is no [try] here. *)
Definition GDALTileInterface_lookup (w : World) (lat lng : Q) : M State Z :=
  let* st := get in
  let nearest := index_intersection (index (self st)) lat lng in
  match nearest with
  | [] => ret SEA_LEVEL
  | first :: _ =>
      let coords := item_object first in
      if negb (cache_all (self st)) then
        let* file := lift (key (o_file coords)) in
        let* gdal_interface := _open_gdal_interface w file in
        let* v := call_lookup gdal_interface lat lng in
        ret v
      else
        let* interface := lift (key (o_interface coords)) in
        ret (GDALInterface_lookup_cache lat lng interface)
  end.

(** ** Vocabulary of the statements *)



(** The fractional pixel/line both lookups compute before [int]. *)
Definition geo_to_pixel (inv : GeoTransform) (xgeo ygeo : Q) : Q * Q :=
  let u := (xgeo - gt0 inv)%Q in
  let v := (ygeo - gt3 inv)%Q in
  ((gt1 inv * u + gt2 inv * v)%Q, (gt4 inv * u + gt5 inv * v)%Q).

Definition xpix_of (inv : GeoTransform) (xgeo ygeo : Q) : Z :=
  py_int (fst (geo_to_pixel inv xgeo ygeo)).
Definition ylin_of (inv : GeoTransform) (xgeo ygeo : Q) : Z :=
  py_int (snd (geo_to_pixel inv xgeo ygeo)).

(** An index is inside an axis of length [n] when [0 <= i < n]. *)
Definition in_bounds (n i : Z) : Prop := 0 <= i < n.

(** The cache part of a state is well formed: the recency list has no
    repetition, lists exactly the keys of the mapping, and every reference in
    the mapping is allocated. *)
Definition cache_wf (st : State) : Prop :=
  NoDup (cached_open_interfaces (self st))
  ∧ (∀ p, p ∈ cached_open_interfaces (self st)
          ↔ is_Some (cached_open_interfaces_dict (self st) !! p))
  ∧ (∀ p r, cached_open_interfaces_dict (self st) !! p = Some r
            → (r < length (heap st))%nat).

(** Acquiring paths one after the other; the results in order. *)
Fixpoint acquire_seq (w : World) (ps : list string) (st : State)
  : list (result nat) * State :=
  match ps with
  | [] => ([], st)
  | p :: ps' =>
      let '(r, st1) := _open_gdal_interface w p st in
      let '(rs, st2) := acquire_seq w ps' st1 in
      (r :: rs, st2)
  end.

(** States reached from [st0] by acquire operations, with the path of the
    last acquire that returned. *)
Inductive cache_run (st0 : State) : State -> option string -> Prop :=
| run_init : cache_run st0 st0 None
| run_acquire st m w p :
    cache_run st0 st m ->
    cache_run st0 (snd (_open_gdal_interface w p st))
      (if is_ok (fst (_open_gdal_interface w p st)) then Some p else m).

Definition is_closed (h : list GDALInterface) (r : nat) : Prop :=
  ∃ o, h !! r = Some o ∧ src o = None.
Definition is_open (h : list GDALInterface) (r : nat) : Prop :=
  ∃ o ds, h !! r = Some o ∧ src o = Some ds.

(** The state right after a newly opened tile was recorded in the cache,
    before the capacity test of [_open_gdal_interface]. *)
Definition recorded (path : string) (o : GDALInterface) (st : State) : State :=
  {| heap := heap st ++ [o];
     self :=
       set_cached_open_interfaces_dict
         (<[path := length (heap st)]> (cached_open_interfaces_dict (self st)))
         (set_cached_open_interfaces
            (cached_open_interfaces (self st) ++ [path]) (self st));
     disk := disk st |}.

(** The state after the eviction of [victim], held under reference [r]. *)
Definition evicted (victim : string) (r : nat) (o : GDALInterface)
  (rest : list string) (st : State) : State :=
  {| heap := <[r := close o]> (heap st);
     self :=
       set_cached_open_interfaces_dict
         (delete victim (cached_open_interfaces_dict (self st)))
         (set_cached_open_interfaces rest (self st));
     disk := disk st |}.

(** Recording every path of [ps] in turn, with no capacity test. *)
Fixpoint record_all (w : World) (ps : list string) (st : State) : State :=
  match ps with
  | [] => st
  | p :: ps' =>
      match GDALInterface_init w p false with
      | Ok o => record_all w ps' (recorded p o st)
      | Raise _ => st
      end
  end.

(** Every path of [ps] can be opened. *)
Definition all_open (w : World) (ps : list string) : Prop :=
  ∀ p, p ∈ ps → ∃ o, GDALInterface_init w p false = Ok o.

(** The item [_build_index] inserts for entry [e] in non-cached mode, when
    the entry has four coordinates and rtree accepts the box. *)
Definition indexed (index_id : Z) (h : list GDALInterface) (e : CatalogEntry)
  : option IndexItem :=
  match e_coords e with
  | Some (c0 :: c1 :: c2 :: c3 :: _) =>
      if bounds_ok (c0, c2, c1, c3)
      then Some {| item_id := index_id;
                   item_bounds := (c0, c2, c1, c3);
                   item_object := pickle h (set_e_index_id (Some index_id) e) |}
      else None
  | _ => None
  end.

(** The state after one round of the loop of [_build_index] in non-cached
    mode: entry [k] got its ['index_id'] and [it] is in the index. *)
Definition added (index_id : Z) (it : IndexItem) (k : nat) (st : State)
  : State :=
  set_self
    (set_index (index (self st) ++ [it])
       (set_all_coords
          (alter (set_e_index_id (Some index_id)) k (all_coords (self st)))
          (self st)))
    st.



(** The four ways a call [_open_gdal_interface w path st] can go. *)
Inductive open_outcome (w : World) (path : string) (st : State)
  : result nat * State -> Prop :=
| outcome_hit r l :
    cached_open_interfaces_dict (self st) !! path = Some r ->
    list_remove path (cached_open_interfaces (self st)) = Ok l ->
    open_outcome w path st
      (Ok r, set_self (set_cached_open_interfaces (l ++ [path]) (self st)) st)
| outcome_fails e :
    cached_open_interfaces_dict (self st) !! path = None ->
    GDALInterface_init w path false = Raise e ->
    open_outcome w path st (Raise e, st)
| outcome_fits o :
    cached_open_interfaces_dict (self st) !! path = None ->
    GDALInterface_init w path false = Ok o ->
    Z.of_nat (length (cached_open_interfaces (self st) ++ [path]))
      <= open_interfaces_size (self st) ->
    open_outcome w path st (Ok (length (heap st)), recorded path o st)
| outcome_evicts o victim rest r ov :
    cached_open_interfaces_dict (self st) !! path = None ->
    GDALInterface_init w path false = Ok o ->
    Z.of_nat (length (cached_open_interfaces (self st) ++ [path]))
      > open_interfaces_size (self st) ->
    cached_open_interfaces (self st) ++ [path] = victim :: rest ->
    <[path := length (heap st)]> (cached_open_interfaces_dict (self st))
      !! victim = Some r ->
    (heap st ++ [o]) !! r = Some ov ->
    open_outcome w path st
      (Ok (length (heap st)), evicted victim r ov rest (recorded path o st)).

(** ** Concrete tiles *)

Module Sample.

(** A north-up 2x2 raster in WGS84: origin (0, 2), one unit per pixel. *)
Definition raster : Dataset :=
  {| RasterXSize := 2; RasterYSize := 2;
     GetGeoTransform := GT 0 1 0 2 0 (-1);
     TransformPoint := fun lon lat => Ok (lon, lat);
     ReadAsArray := Some [[1; 2]; [3; -32768]] |}.

Definition world : World :=
  {| gdal_Open := fun p =>
       if String.eqb p "tiles/a.tif" then Some raster else None;
     listdir := fun _ => ["a.tif"; "notes.txt"]%string;
     isfile := fun p => String.eqb p "tiles/a.tif"
                        || String.eqb p "tiles/notes.txt" |}.

(** The same folder after [a.tif] was deleted. *)
Definition world_deleted : World :=
  {| gdal_Open := fun _ => None;
     listdir := fun _ => ["notes.txt"]%string;
     isfile := fun p => String.eqb p "tiles/notes.txt" |}.

(** Three more rasters, for cache scenarios. *)
Definition world4 : World :=
  {| gdal_Open := fun p =>
       if String.eqb p "a" || String.eqb p "b"
          || String.eqb p "c" || String.eqb p "d"
       then Some raster else None;
     listdir := fun _ => [];
     isfile := fun _ => false |}.

Definition fresh (size : Z) : State :=
  init_state "tiles" "tiles/summary.json" size false ∅.

(** The process after startup with an empty folder summary. *)
Definition started : State := snd (create_summary_json world (fresh 5)).


(** A catalog of two tiles, before and after the index is built. *)
Definition two_tiles : State :=
  set_self
    (set_all_coords
       [new_entry "tiles/a.tif" 0 2 0 2; new_entry "tiles/b.tif" 2 4 0 2]
       (GDALTileInterface_init "tiles" "tiles/summary.json" 5 false))
    (fresh 5).

Definition two_tiles_indexed : State := snd (_build_index world two_tiles).

Definition tile : GDALInterface :=
  match loadMetadata world "tiles/a.tif" with
  | Ok o => o
  | Raise _ => {| tif_path := None; src := None;
                  coordinate_transform := None;
                  geo_transform := GT 0 0 0 0 0 0;
                  geo_transform_inv := GT 0 0 0 0 0 0;
                  points_array := None; cache_array := None |}
  end.

Definition tile_cached : GDALInterface :=
  match load_all tile with Ok o => o | Raise _ => tile end.

End Sample.

(** ** The server's use of the resolver ([server.py]) *)

(** [build_summary], with the configured [ALWAYS_REBUILD_SUMMARY]. *)
Definition build_summary (ALWAYS_REBUILD_SUMMARY : bool) (w : World)
  : M State unit :=
  let* st := get in
  if has_summary_json st && negb ALWAYS_REBUILD_SUMMARY
  then read_summary_json w
  else create_summary_json w.

(** The two records [get_elevation] returns.  The text under ['error'] is
    ['No such coordinate (%s, %s)' % (lat, lng)], fixed by the two fields. *)
Inductive Answer : Type :=
| Elevation (latitude longitude : Q) (elevation : Z)
| NoSuchCoordinate (latitude longitude : Q).

Definition answer_location (a : Answer) : Q * Q :=
  match a with
  | Elevation lat lng _ => (lat, lng)
  | NoSuchCoordinate lat lng => (lat, lng)
  end.

(** [get_elevation]: whatever the lookup raises is caught. *)
Definition get_elevation (w : World) (lat lng : Q) (st : State)
  : Answer * State :=
  match GDALTileInterface_lookup w lat lng st with
  | (Ok elevation, st') => (Elevation lat lng elevation, st')
  | (Raise _, st') => (NoSuchCoordinate lat lng, st')
  end.

(** [[get_elevation(lat, lng, gdal_interface) for (lat, lng) in locations]] *)
Fixpoint get_elevations (w : World) (locations : list (Q * Q)) (st : State)
  : list Answer * State :=
  match locations with
  | [] => ([], st)
  | (lat, lng) :: rest =>
      let '(a, st1) := get_elevation w lat lng st in
      let '(answers, st2) := get_elevations w rest st1 in
      (a :: answers, st2)
  end.

(** What [get_locations_func()] comes to: the locations, or an
    [InternalException] carrying the JSON text of the error. *)
Inductive Located : Type :=
| Locations (locations : list (Q * Q))
| InternalException (body : string).

(** What [do_lookup] hands to the framework: the results, or status 400 with
    the text of the exception. *)
Inductive Reply : Type :=
| Results (results : list Answer)
| BadRequest (body : string).

Definition do_lookup (get_locations_func : Located) (w : World) (st : State)
  : Reply * State :=
  match get_locations_func with
  | Locations locations =>
      let '(results, st') := get_elevations w locations st in
      (Results results, st')
  | InternalException body => (BadRequest body, st)
  end.

(** ** More vocabulary *)

(** An index lies beyond both ends of an axis of length [n]. *)
Definition far (n : nat) (i : Z) : Prop :=
  Z.of_nat n <= i ∨ i < - Z.of_nat n.

(** Every sample of the band fits a signed 16-bit integer. *)
Definition fits_int16 (a : ndarray) : Prop :=
  ∀ row v, row ∈ a -> v ∈ row -> -32768 <= v <= 32767.

(** Every row of the array has [n] samples. *)
Definition width (a : ndarray) (n : nat) : Prop :=
  ∀ row, row ∈ a -> length row = n.

(** Every cached path refers to its own object, and that object is open. *)
Definition cache_open (st : State) : Prop :=
  (∀ p q r, cached_open_interfaces_dict (self st) !! p = Some r ->
            cached_open_interfaces_dict (self st) !! q = Some r -> p = q)
  ∧ (∀ p r, cached_open_interfaces_dict (self st) !! p = Some r ->
            is_open (heap st) r).

(** The cache part of two states is the same. *)
Definition same_cache (st st' : State) : Prop :=
  heap st' = heap st
  ∧ cached_open_interfaces (self st') = cached_open_interfaces (self st)
  ∧ cached_open_interfaces_dict (self st')
    = cached_open_interfaces_dict (self st)
  ∧ open_interfaces_size (self st') = open_interfaces_size (self st)
  ∧ cache_all (self st') = cache_all (self st).

(** The box [_build_index] inserts for an entry with four coordinates. *)
Definition box_of (e : CatalogEntry) : option (Q * Q * Q * Q) :=
  match e_coords e with
  | Some (c0 :: c1 :: c2 :: c3 :: _) => Some (c0, c2, c1, c3)
  | _ => None
  end.

Module Scenario.

(** A band with a sample beyond the int16 range. *)
Definition wide_raster : Dataset :=
  {| RasterXSize := 2; RasterYSize := 1;
     GetGeoTransform := GT 0 1 0 1 0 (-1);
     TransformPoint := fun lon lat => Ok (lon, lat);
     ReadAsArray := Some [[40000; 7]] |}.

Definition wide_world : World :=
  {| gdal_Open := fun _ => Some wide_raster;
     listdir := fun _ => ["w.tif"]%string;
     isfile := fun _ => true |}.

Definition wide_tile : GDALInterface :=
  match loadMetadata wide_world "w.tif" with
  | Ok o => o
  | Raise _ => Sample.tile
  end.

Definition wide_tile_cached : GDALInterface :=
  match load_all wide_tile with Ok o => o | Raise _ => wide_tile end.

(** [Sample.tile] after one lookup read its band. *)
Definition tile_read : GDALInterface :=
  snd (GDALInterface_lookup (3#2) (1#2) Sample.tile).

End Scenario.

(** * Properties *)

(** ** One tile *)







(** A fault inside the [try] of either lookup gives [SEA_LEVEL]. *)
Lemma lookup_fault_sea_level lat lon self e :
  fst (lookup_try lat lon self) = Raise e ->
  fst (GDALInterface_lookup lat lon self) = SEA_LEVEL.
Proof.
  unfold GDALInterface_lookup. destruct (lookup_try lat lon self) as [[v|x] s].
  - discriminate.
  - reflexivity.
Qed.

(** C7. In both modes, once the sample at the computed pixel has been read,
    the lookup returns 0 for the no-data value -32768 and the sample itself
    otherwise. *)
Theorem lookup_returns_sample_or_sea_level :
  (∀ (self : GDALInterface) (lat lon xgeo ygeo : Q) t arr v,
      coordinate_transform self = Some t ->
      t lon lat = Ok (xgeo, ygeo) ->
      fst (get_points_array self) = Ok arr ->
      getitem2 arr (ylin_of (geo_transform_inv self) xgeo ygeo)
                   (xpix_of (geo_transform_inv self) xgeo ygeo) = Ok v ->
      fst (GDALInterface_lookup lat lon self)
      = if v =? -32768 then 0 else v)
  ∧ (∀ (self : GDALInterface) (lat lon : Q) arr v,
      cache_array self = Some arr ->
      ndarray_getitem arr (ylin_of (geo_transform_inv self) lon lat)
                          (xpix_of (geo_transform_inv self) lon lat) = Ok v ->
      GDALInterface_lookup_cache lat lon self
      = if v =? -32768 then 0 else v).
Proof.
  split.
  - intros self lat lon xgeo ygeo t arr v Hct Ht Harr Hv.
    unfold GDALInterface_lookup, lookup_try, bind, get, lift, ret.
    rewrite Hct, Ht. cbn [fst snd].
    destruct (get_points_array self) as [r s] eqn:Hg. cbn in Harr. subst r.
    unfold xpix_of, ylin_of, geo_to_pixel in Hv. cbn [fst snd] in Hv.
    rewrite Hv. reflexivity.
  - intros self lat lon arr v Hc Hv.
    unfold GDALInterface_lookup_cache, lookup_cache_try.
    rewrite Hc.
    unfold xpix_of, ylin_of, geo_to_pixel in Hv. cbn [fst snd] in Hv.
    rewrite Hv. reflexivity.
Qed.

Lemma lookup_returns_sample_or_sea_level_witness :
  fst (GDALInterface_lookup (3#2) (1#2) Sample.tile) = 1
  ∧ fst (GDALInterface_lookup (1#2) (3#2) Sample.tile) = 0
  ∧ GDALInterface_lookup_cache (3#2) (3#2) Sample.tile_cached = 2
  ∧ GDALInterface_lookup_cache (1#2) (3#2) Sample.tile_cached = 0.
Proof.
  split; [|split; [|split]].
  - apply (proj1 lookup_returns_sample_or_sea_level Sample.tile (3#2) (1#2)
             (1#2) (3#2) (fun lon lat => Ok (lon, lat)) (Some [[1; 2]; [3; -32768]]) 1);
      reflexivity.
  - apply (proj1 lookup_returns_sample_or_sea_level Sample.tile (1#2) (3#2)
             (3#2) (1#2) (fun lon lat => Ok (lon, lat)) (Some [[1; 2]; [3; -32768]]) (-32768));
      reflexivity.
  - apply (proj2 lookup_returns_sample_or_sea_level Sample.tile_cached (3#2) (3#2)
             [[1; 2]; [3; -32768]] 2); reflexivity.
  - apply (proj2 lookup_returns_sample_or_sea_level Sample.tile_cached (1#2) (3#2)
             [[1; 2]; [3; -32768]] (-32768)); reflexivity.
Defined.

(** C5, at a tile of width 2: the computed pixel is -1, outside [0, 2), no
    exception is raised by the array read, and the lookup returns the sample
    of the last column instead of 0. *)
Theorem lookup_negative_pixel_wraps :
  xpix_of (geo_transform_inv Sample.tile) (-3#2) (3#2) = -1
  ∧ ylin_of (geo_transform_inv Sample.tile) (-3#2) (3#2) = 0
  ∧ ~ in_bounds 2 (-1)
  ∧ fst (GDALInterface_lookup (3#2) (-3#2) Sample.tile) = 2
  ∧ GDALInterface_lookup_cache (3#2) (-3#2) Sample.tile_cached = 2.
Proof.
  repeat split; try reflexivity.
  unfold in_bounds. lia.
Qed.

(** An index at or beyond the end of an axis, or before minus its length,
    does raise, and the lookup then returns 0. *)
Lemma axis_getitem_far {A} (l : list A) (i : Z) :
  Z.of_nat (length l) <= i ∨ i < - Z.of_nat (length l) ->
  axis_getitem l i = Raise IndexError.
Proof.
  intros H. unfold axis_getitem. cbv zeta.
  destruct (i <? 0) eqn:Ei.
  - apply Z.ltb_lt in Ei.
    destruct (i + Z.of_nat (length l) <? 0) eqn:E1; [reflexivity|].
    apply Z.ltb_ge in E1. lia.
  - apply Z.ltb_ge in Ei.
    destruct (i <? 0) eqn:E1; [apply Z.ltb_lt in E1; lia|].
    destruct (Z.of_nat (length l) <=? i) eqn:E2; [reflexivity|].
    apply Z.leb_gt in E2. lia.
Qed.

(** ** The resolver *)

(** C6. When the index returns no tile for the point, the lookup returns 0
    and touches nothing. *)
Theorem lookup_outside_every_box (w : World) (st : State) (lat lng : Q) :
  index_intersection (index (self st)) lat lng = [] ->
  GDALTileInterface_lookup w lat lng st = (Ok 0, st).
Proof.
  intros H. unfold GDALTileInterface_lookup, bind, get.
  rewrite H. reflexivity.
Qed.

Lemma lookup_outside_every_box_witness :
  GDALTileInterface_lookup Sample.world (5#2) (1#2) Sample.started
  = (Ok 0, Sample.started).
Proof.
  apply (lookup_outside_every_box Sample.world Sample.started (5#2) (1#2)).
  reflexivity.
Defined.

(** ** The cache of open tiles *)

Lemma list_remove_perm p l l' :
  list_remove p l = Ok l' -> l ≡ₚ p :: l'.
Proof.
  revert l'. induction l as [|y l IH]; intros l' H; cbn in H.
  - discriminate.
  - destruct (decide (p = y)) as [->|Hne].
    + now inversion H.
    + destruct (list_remove p l) as [r|] eqn:E; [|discriminate].
      inversion H; subst. rewrite (IH r eq_refl). apply Permutation_swap.
Qed.

Lemma list_remove_elem p l :
  p ∈ l -> ∃ l', list_remove p l = Ok l'.
Proof.
  induction l as [|y l IH]; intros H.
  - inversion H.
  - cbn. destruct (decide (p = y)) as [->|Hne]; [eauto|].
    apply elem_of_cons in H as [H|H]; [contradiction|].
    destruct (IH H) as [l' ->]. eauto.
Qed.

Section Cache.

Variable w : World.

Lemma open_hit path st r l :
  cached_open_interfaces_dict (self st) !! path = Some r ->
  list_remove path (cached_open_interfaces (self st)) = Ok l ->
  _open_gdal_interface w path st
  = (Ok r, set_self (set_cached_open_interfaces (l ++ [path]) (self st)) st).
Proof.
  intros Hd Hl. unfold _open_gdal_interface, bind, get.
  rewrite Hd. unfold lift. rewrite Hl. reflexivity.
Qed.

Lemma open_miss_fails path st e :
  cached_open_interfaces_dict (self st) !! path = None ->
  GDALInterface_init w path false = Raise e ->
  _open_gdal_interface w path st = (Raise e, st).
Proof.
  intros Hd Hi. unfold _open_gdal_interface, bind, get.
  rewrite Hd. unfold lift. rewrite Hi. reflexivity.
Qed.

Lemma open_miss_fits path st o :
  cached_open_interfaces_dict (self st) !! path = None ->
  GDALInterface_init w path false = Ok o ->
  Z.of_nat (length (cached_open_interfaces (self st) ++ [path]))
    <= open_interfaces_size (self st) ->
  _open_gdal_interface w path st
  = (Ok (length (heap st)), recorded path o st).
Proof.
  intros Hd Hi Hn. unfold _open_gdal_interface, bind, get.
  rewrite Hd. unfold lift. rewrite Hi. cbn.
  destruct (_ >? _) eqn:E; [|reflexivity].
  apply Z.gtb_lt in E. lia.
Qed.

Lemma open_miss_evicts path st o victim rest r ov :
  cached_open_interfaces_dict (self st) !! path = None ->
  GDALInterface_init w path false = Ok o ->
  Z.of_nat (length (cached_open_interfaces (self st) ++ [path]))
    > open_interfaces_size (self st) ->
  cached_open_interfaces (self st) ++ [path] = victim :: rest ->
  <[path := length (heap st)]> (cached_open_interfaces_dict (self st))
    !! victim = Some r ->
  (heap st ++ [o]) !! r = Some ov ->
  _open_gdal_interface w path st
  = (Ok (length (heap st)),
     evicted victim r ov rest (recorded path o st)).
Proof.
  intros Hd Hi Hn Hl Hv Hr. unfold _open_gdal_interface, bind, get.
  rewrite Hd. unfold lift. rewrite Hi. cbn.
  destruct (_ >? _) eqn:E.
  2:{ rewrite Z.gtb_ltb in E. apply Z.ltb_ge in E. lia. }
  unfold pop0. cbn. rewrite Hl.
  unfold dict_getitem. cbn. rewrite Hv.
  unfold deref. cbn. rewrite Hr. reflexivity.
Qed.

Lemma recorded_wf path o st :
  cache_wf st ->
  cached_open_interfaces_dict (self st) !! path = None ->
  cache_wf (recorded path o st).
Proof.
  intros (Hnd & Hset & Href) Hd. unfold cache_wf; cbn.
  assert (Hnotin : path ∉ cached_open_interfaces (self st)).
  { intros Hin. apply Hset in Hin. rewrite Hd in Hin. by destruct Hin. }
  split; [|split].
  - apply NoDup_app. split; [done|]. split.
    + intros x Hx Hx'. apply list_elem_of_singleton in Hx'. by subst.
    + apply NoDup_singleton.
  - intros p. rewrite elem_of_app, list_elem_of_singleton, Hset.
    destruct (decide (path = p)) as [->|Hne].
    + rewrite lookup_insert_eq. split; eauto.
    + rewrite lookup_insert_ne by done. split; [|by left].
      intros [H|H]; [done|]. by subst.
  - intros p r. rewrite length_app; cbn.
    destruct (decide (path = p)) as [->|Hne].
    + rewrite lookup_insert_eq. intros [= <-]. lia.
    + rewrite lookup_insert_ne by done. intros H. apply Href in H. lia.
Qed.

Lemma evicted_wf victim r ov rest st :
  cache_wf st ->
  cached_open_interfaces (self st) = victim :: rest ->
  cache_wf (evicted victim r ov rest st).
Proof.
  intros (Hnd & Hset & Href) Hl. unfold cache_wf; cbn.
  rewrite Hl in Hnd. apply NoDup_cons in Hnd as [Hv Hnd].
  split; [done|]. split.
  - intros p. destruct (decide (victim = p)) as [->|Hne].
    + rewrite lookup_delete_eq. split; [done|]. intros H. by destruct H.
    + rewrite lookup_delete_ne by done. rewrite <- Hset, Hl, elem_of_cons.
      split; [by right|]. intros [H|H]; [by subst|done].
  - intros p q. rewrite length_insert.
    destruct (decide (victim = p)) as [->|Hne].
    + by rewrite lookup_delete_eq.
    + rewrite lookup_delete_ne by done. apply Href.
Qed.

(** Every call from a well-formed cache goes one of the four ways. *)
Lemma open_cases path st :
  cache_wf st ->
  open_outcome w path st (_open_gdal_interface w path st).
Proof.
  intros Hwf. pose proof Hwf as (Hnd & Hset & Href).
  destruct (cached_open_interfaces_dict (self st) !! path) as [r|] eqn:Hd.
  - assert (Hin : path ∈ cached_open_interfaces (self st)).
    { apply Hset. eauto. }
    destruct (list_remove_elem _ _ Hin) as [l Hl].
    rewrite (open_hit _ _ _ _ Hd Hl). by apply outcome_hit.
  - destruct (GDALInterface_init w path false) as [o|e] eqn:Hi.
    2:{ rewrite (open_miss_fails _ _ _ Hd Hi). by apply outcome_fails. }
    destruct (Z_le_gt_dec
                (Z.of_nat (length (cached_open_interfaces (self st) ++ [path])))
                (open_interfaces_size (self st))) as [Hle|Hgt].
    { rewrite (open_miss_fits _ _ _ Hd Hi Hle). by apply outcome_fits. }
    assert (Hl : ∃ victim rest,
               cached_open_interfaces (self st) ++ [path] = victim :: rest).
    { destruct (cached_open_interfaces (self st)); cbn; eauto. }
    destruct Hl as (victim & rest & Hl).
    pose proof (recorded_wf path o st Hwf Hd) as (_ & Hset' & Href').
    cbn in Hset', Href'.
    assert (Hv : is_Some (<[path:=length (heap st)]>
                   (cached_open_interfaces_dict (self st)) !! victim)).
    { apply Hset'. rewrite Hl. left. }
    destruct Hv as [r Hv].
    destruct (lookup_lt_is_Some_2 (heap st ++ [o]) r (Href' _ _ Hv))
      as [ov Hov].
    rewrite (open_miss_evicts _ _ _ _ _ _ _ Hd Hi Hgt Hl Hv Hov).
    by eapply outcome_evicts.
Qed.

Lemma open_preserves_wf path st :
  cache_wf st -> cache_wf (snd (_open_gdal_interface w path st)).
Proof.
  intros Hwf. destruct (open_cases path st Hwf); cbn [snd].
  - destruct Hwf as (Hnd & Hset & Href).
    pose proof (list_remove_perm _ _ _ H0) as Hp.
    unfold cache_wf; cbn. split; [|split; [|done]].
    + rewrite Hp in Hnd. apply NoDup_cons in Hnd as [Hnotin Hnd].
      apply NoDup_app. split; [done|]. split; [|apply NoDup_singleton].
      intros x Hx Hx'. apply list_elem_of_singleton in Hx'. by subst.
    + intros q. rewrite <- Hset, Hp, elem_of_app, list_elem_of_singleton, elem_of_cons.
      tauto.
  - done.
  - by apply recorded_wf.
  - apply evicted_wf; [by apply recorded_wf|done].
Qed.


Lemma init_state_wf folder summary size cache files :
  cache_wf (init_state folder summary size cache files).
Proof.
  unfold cache_wf; cbn. split; [apply NoDup_nil_2|]. split.
  - intros p. rewrite lookup_empty. split; [by inversion 1|].
    intros H. by destruct H.
  - intros p r. by rewrite lookup_empty.
Qed.

(** In a well-formed cache the mapping has as many keys as the recency
    list has paths. *)
Lemma wf_size st :
  cache_wf st ->
  size (cached_open_interfaces_dict (self st))
  = length (cached_open_interfaces (self st)).
Proof.
  intros (Hnd & Hset & _).
  rewrite <- (size_dom (D := gset string)).
  assert (Hdom : dom (cached_open_interfaces_dict (self st))
                 = list_to_set (cached_open_interfaces (self st))).
  { apply set_eq. intros p.
    rewrite elem_of_dom, elem_of_list_to_set. symmetry. apply Hset. }
  rewrite Hdom. by apply size_list_to_set.
Qed.

Lemma open_keeps_size path st :
  open_interfaces_size (self (snd (_open_gdal_interface w path st)))
  = open_interfaces_size (self st).
Proof.
  unfold _open_gdal_interface, bind, get, lift.
  destruct (cached_open_interfaces_dict (self st) !! path).
  - destruct (list_remove _ _); reflexivity.
  - destruct (GDALInterface_init w path false); [|reflexivity].
    cbn. destruct (_ >? _); [|reflexivity].
    unfold pop0; cbn.
    destruct (cached_open_interfaces (self st) ++ [path]); [reflexivity|].
    unfold dict_getitem; cbn.
    destruct (_ !! _); [|reflexivity].
    unfold deref; cbn. destruct (_ !! _); reflexivity.
Qed.

(** One more acquire that returns. *)
Lemma run_acquire_ok st0 st m path :
  cache_run st0 st m ->
  is_ok (fst (_open_gdal_interface w path st)) = true ->
  cache_run st0 (snd (_open_gdal_interface w path st)) (Some path).
Proof.
  intros Hrun Hok. pose proof (run_acquire st0 st m w path Hrun) as H.
  by rewrite Hok in H.
Qed.

End Cache.

(** What every state reached by acquires from the empty cache satisfies. *)
Lemma cache_run_invariant (size : Z) folder summary cache files st m :
  cache_run (init_state folder summary size cache files) st m ->
  cache_wf st ∧ open_interfaces_size (self st) = size
  ∧ (0 <= size -> Z.of_nat (length (cached_open_interfaces (self st))) <= size)
  ∧ (1 <= size -> last (cached_open_interfaces (self st)) = m).
Proof.
  induction 1 as [|st m w p Hrun (Hwf & Hsz & Hlen & Hlast)].
  - split; [apply init_state_wf|]. cbn. repeat split; auto; lia.
  - split; [by apply open_preserves_wf|].
    split; [by rewrite open_keeps_size|].
    destruct (open_cases w p st Hwf) as
      [r l Hd Hl|e Hd Hi|o Hd Hi Hfit|o victim rest r ov Hd Hi Hgt Hsplit Hv Hov];
      cbn [fst snd is_ok].
    + cbn. pose proof (list_remove_perm _ _ _ Hl) as Hp.
      apply Permutation_length in Hp. cbn in Hp.
      rewrite length_app; cbn. split; [|intros; apply last_snoc].
      intros H0. specialize (Hlen H0). lia.
    + auto.
    + cbn. split; [|intros; apply last_snoc]. intros _. by rewrite <- Hsz.
    + cbn. assert (Hlr : length rest = length (cached_open_interfaces (self st))).
      { apply (f_equal length) in Hsplit. rewrite length_app in Hsplit.
        cbn in Hsplit. lia. }
      split; [intros H0; specialize (Hlen H0); lia|].
      intros H1. rewrite Hsplit in Hgt. cbn [length] in Hgt.
      destruct rest as [|x rest']; [cbn in Hgt; lia|].
      rewrite <- (last_cons_cons victim), <- Hsplit. apply last_snoc.
Qed.

(** C4, for a capacity of at least one.  After any sequence of acquire
    operations from the empty cache the mapping holds at most [N] entries,
    the recency list and the mapping hold the same paths, and the last path
    acquired is the last of the recency list. *)
Theorem cache_invariant (N : Z) folder summary cache files st m :
  1 <= N ->
  cache_run (init_state folder summary N cache files) st m ->
  Z.of_nat (size (cached_open_interfaces_dict (self st))) <= N
  ∧ (∀ p, p ∈ cached_open_interfaces (self st)
          ↔ p ∈ dom (cached_open_interfaces_dict (self st)))
  ∧ last (cached_open_interfaces (self st)) = m.
Proof.
  intros HN Hrun.
  destruct (cache_run_invariant _ _ _ _ _ _ _ Hrun) as (Hwf & _ & Hlen & Hlast).
  split; [|split].
  - rewrite (wf_size _ Hwf). apply Hlen. lia.
  - intros p. rewrite elem_of_dom. apply Hwf.
  - by apply Hlast.
Qed.

Lemma cache_invariant_witness :
  let st1 := snd (_open_gdal_interface Sample.world4 "a" (Sample.fresh 1)) in
  let st2 := snd (_open_gdal_interface Sample.world4 "b" st1) in
  Z.of_nat (size (cached_open_interfaces_dict (self st2))) <= 1
  ∧ (∀ p, p ∈ cached_open_interfaces (self st2)
          ↔ p ∈ dom (cached_open_interfaces_dict (self st2)))
  ∧ last (cached_open_interfaces (self st2)) = Some "b"%string.
Proof.
  apply (cache_invariant 1 "tiles" "tiles/summary.json" false ∅); [lia|].
  apply run_acquire_ok with (m := Some "a"%string).
  - apply run_acquire_ok with (m := None); [apply run_init|].
    vm_compute. reflexivity.
  - vm_compute. reflexivity.
Defined.

(** With capacity 0 the tile just opened is itself evicted: the acquire
    returns, and its path is not the last of the recency list. *)
Lemma cache_invariant_fails_at_capacity_zero :
  let st0 := Sample.fresh 0 in
  let st1 := snd (_open_gdal_interface Sample.world "tiles/a.tif" st0) in
  cache_run st0 st1 (Some "tiles/a.tif"%string)
  ∧ is_ok (fst (_open_gdal_interface Sample.world "tiles/a.tif" st0)) = true
  ∧ last (cached_open_interfaces (self st1)) = None
  ∧ ~ (last (cached_open_interfaces (self st1)) = Some "tiles/a.tif"%string).
Proof.
  cbv zeta.
  assert (Hok : is_ok (fst (_open_gdal_interface Sample.world "tiles/a.tif"
                              (Sample.fresh 0))) = true)
    by (vm_compute; reflexivity).
  assert (Hlast : last (cached_open_interfaces
                          (self (snd (_open_gdal_interface Sample.world
                                        "tiles/a.tif" (Sample.fresh 0))))) = None)
    by (vm_compute; reflexivity).
  split; [|split; [|split]].
  - apply run_acquire_ok with (m := None); [apply run_init|exact Hok].
  - exact Hok.
  - exact Hlast.
  - rewrite Hlast. discriminate.
Qed.

(** ** Filling the cache *)

Section Filling.

Variable w : World.

Lemma init_opens o path :
  GDALInterface_init w path false = Ok o -> ∃ ds, src o = Some ds.
Proof.
  intros H. unfold GDALInterface_init in H.
  destruct (loadMetadata w path) as [o'|] eqn:Hl; [|discriminate].
  inversion H; subst o'. unfold loadMetadata in Hl.
  destruct (gdal_Open w path) as [ds|]; [|discriminate].
  cbv zeta in Hl.
  repeat match type of Hl with
         | context [py_div ?a ?b] => destruct (py_div a b); [|discriminate]
         end.
  inversion Hl. cbn. eauto.
Qed.

Lemma record_all_snoc ps p o st :
  all_open w ps ->
  GDALInterface_init w p false = Ok o ->
  record_all w (ps ++ [p]) st = recorded p o (record_all w ps st).
Proof.
  revert st. induction ps as [|q ps IH]; intros st Hall Hp; cbn.
  - by rewrite Hp.
  - destruct (Hall q) as [oq Hq]; [left|]. rewrite Hq.
    apply IH; [|done]. intros x Hx. apply Hall. by right.
Qed.

(** What recording a list of distinct paths leaves behind. *)
Lemma record_all_spec ps st :
  NoDup ps -> all_open w ps ->
  let st' := record_all w ps st in
  cached_open_interfaces (self st') = cached_open_interfaces (self st) ++ ps
  ∧ length (heap st') = (length (heap st) + length ps)%nat
  ∧ (∀ i p, ps !! i = Some p ->
       cached_open_interfaces_dict (self st') !! p
       = Some (length (heap st) + i)%nat)
  ∧ (∀ q, q ∉ ps ->
       cached_open_interfaces_dict (self st') !! q
       = cached_open_interfaces_dict (self st) !! q)
  ∧ (∀ i o, heap st !! i = Some o -> heap st' !! i = Some o)
  ∧ (∀ i p, ps !! i = Some p -> is_open (heap st') (length (heap st) + i))
  ∧ open_interfaces_size (self st') = open_interfaces_size (self st).
Proof.
  revert st. induction ps as [|p ps IH]; intros st Hnd Hall; cbn.
  - rewrite app_nil_r. repeat split; auto; try lia; try done.
  - apply NoDup_cons in Hnd as [Hp Hnd].
    destruct (Hall p) as [o Ho]; [left|]. rewrite Ho.
    assert (Hall' : all_open w ps).
    { intros x Hx. apply Hall. by right. }
    destruct (IH (recorded p o st) Hnd Hall')
      as (Hl & Hh & Hd & Hq & Hpre & Hopen & Hsz).
    cbn in Hl, Hh, Hd, Hq, Hpre, Hopen, Hsz.
    rewrite length_app in Hh, Hd, Hopen. cbn in Hh, Hd, Hopen.
    split; [by rewrite Hl, <- app_assoc|].
    split; [lia|]. split; [|split; [|split; [|split]]].
    + intros [|i] q Hi; cbn in Hi.
      * inversion Hi; subst q. rewrite (Hq p Hp), lookup_insert_eq.
        f_equal. lia.
      * rewrite (Hd i q Hi). f_equal. lia.
    + intros q Hnq. apply not_elem_of_cons in Hnq as [Hne Hnq].
      rewrite (Hq q Hnq). by rewrite lookup_insert_ne.
    + intros i x Hi. apply Hpre. apply lookup_app_l_Some. done.
    + intros [|i] q Hi; cbn in Hi.
      * destruct (init_opens _ _ Ho) as [ds Hds].
        exists o, ds. split; [|done]. apply Hpre.
        rewrite Nat.add_0_r. rewrite lookup_app_r by lia.
        by rewrite Nat.sub_diag.
      * replace (length (heap st) + S i)%nat
          with (length (heap st) + 1 + i)%nat by lia.
        by apply (Hopen i q).
    + done.
Qed.

(** Acquiring distinct new paths while there is room records them. *)
Lemma acquire_seq_fits ps st :
  NoDup ps -> all_open w ps ->
  (∀ p, p ∈ ps -> cached_open_interfaces_dict (self st) !! p = None) ->
  Z.of_nat (length (cached_open_interfaces (self st)) + length ps)
    <= open_interfaces_size (self st) ->
  acquire_seq w ps st
  = (map Ok (seq (length (heap st)) (length ps)), record_all w ps st).
Proof.
  revert st. induction ps as [|p ps IH]; intros st Hnd Hall Hnew Hroom;
    cbn [acquire_seq record_all].
  - reflexivity.
  - apply NoDup_cons in Hnd as [Hp Hnd].
    destruct (Hall p) as [o Ho]; [left|]. rewrite Ho.
    cbn [length] in Hroom.
    rewrite (open_miss_fits w p st o); [|apply Hnew; left|done|].
    2:{ rewrite length_app; cbn. lia. }
    rewrite IH; try done.
    + cbn [recorded heap length map seq]. rewrite length_app; cbn.
      by rewrite Nat.add_1_r.
    + intros x Hx. apply Hall. by right.
    + intros x Hx. cbn. rewrite lookup_insert_ne.
      * apply Hnew. by right.
      * intros ->. done.
    + cbn. rewrite length_app; cbn. lia.
Qed.

Lemma acquire_seq_app ps qs st :
  acquire_seq w (ps ++ qs) st
  = let '(rs, st1) := acquire_seq w ps st in
    let '(rs', st2) := acquire_seq w qs st1 in
    (rs ++ rs', st2).
Proof.
  revert st. induction ps as [|p ps IH]; intros st; cbn [acquire_seq app].
  - by destruct (acquire_seq w qs st).
  - destruct (_open_gdal_interface w p st) as [r st1].
    rewrite IH. destruct (acquire_seq w ps st1) as [rs st2].
    by destruct (acquire_seq w qs st2).
Qed.

Lemma acquire_seq_wf ps st :
  cache_wf st -> cache_wf (snd (acquire_seq w ps st)).
Proof.
  revert st. induction ps as [|p ps IH]; intros st Hwf; cbn [acquire_seq];
    [done|].
  pose proof (open_preserves_wf w p st Hwf) as H1.
  destruct (_open_gdal_interface w p st) as [r st1]. cbn in H1.
  specialize (IH st1 H1).
  by destruct (acquire_seq w ps st1).
Qed.

End Filling.

Lemma ok_seq_fresh (a n : nat) :
  Ok (a + n)%nat ∉ map (@Ok nat) (seq a n).
Proof.
  intros H. apply list_elem_of_In, in_map_iff in H as (x & Hx & Hin).
  apply in_seq in Hin. inversion Hx. lia.
Qed.

(** C2. A cache of capacity [N], empty at first, acquires [N + 1] distinct
    paths [p1 :: rest].  The i-th acquire returns the i-th object.  Then [p1]
    is out of the mapping and of the recency list and its object is closed;
    every other path is still mapped to the object it was given, which is
    open; and acquiring [p1] again returns a new object. *)
Theorem eviction_of_least_recent (w : World) (N : nat) (p1 : string)
  (rest : list string) folder summary cache files :
  length rest = N ->
  NoDup (p1 :: rest) ->
  all_open w (p1 :: rest) ->
  let st0 := init_state folder summary (Z.of_nat N) cache files in
  let rs := fst (acquire_seq w (p1 :: rest) st0) in
  let st := snd (acquire_seq w (p1 :: rest) st0) in
  rs = map Ok (seq 0 (S N))
  ∧ cached_open_interfaces_dict (self st) !! p1 = None
  ∧ (p1 ∉ cached_open_interfaces (self st))
  ∧ is_closed (heap st) 0
  ∧ (∀ i p, rest !! i = Some p ->
       cached_open_interfaces_dict (self st) !! p = Some (S i)
       ∧ (p ∈ cached_open_interfaces (self st))
       ∧ is_open (heap st) (S i))
  ∧ (∃ r st', _open_gdal_interface w p1 st = (Ok r, st')
              ∧ r = S N ∧ (Ok r ∉ rs)
              ∧ length (heap st') = S (length (heap st))).
Proof.
  intros Hlen Hnd Hall st0 rs st.
  assert (Hwf : cache_wf st).
  { apply acquire_seq_wf, init_state_wf. }
  destruct (exists_last (l := p1 :: rest)) as (front & pl & Hps); [done|].
  assert (Hlf : length front = N).
  { apply (f_equal length) in Hps. rewrite length_app in Hps. cbn in Hps. lia. }
  assert (Hnd' : NoDup (front ++ [pl])) by (by rewrite <- Hps).
  apply NoDup_app in Hnd' as (Hndf & Hdisj & _).
  assert (Hplf : pl ∉ front).
  { intros Hin. apply (Hdisj pl Hin). left. }
  assert (Hallf : all_open w front).
  { intros x Hx. apply Hall. rewrite Hps. apply elem_of_app. by left. }
  destruct (Hall pl) as [o Ho].
  { rewrite Hps. apply elem_of_app. right. left. }
  (* the cache once the first N paths are in *)
  pose proof (acquire_seq_fits w front st0 Hndf Hallf) as Hfront.
  cbn in Hfront. rewrite Hlf in Hfront.
  specialize (Hfront (fun p _ => lookup_empty p) (Z.le_refl _)).
  destruct (record_all_spec w front st0 Hndf Hallf)
    as (Hl_f & Hh_f & _ & Hq_f & _ & _ & Hsz_f).
  cbn in Hl_f, Hh_f, Hq_f, Hsz_f.
  (* the cache as it would be with all N + 1 paths recorded *)
  pose proof (record_all_snoc w front pl o st0 Hallf Ho) as Hfull.
  rewrite <- Hps in Hfull.
  destruct (record_all_spec w (p1 :: rest) st0 Hnd Hall)
    as (Hl & Hh & Hd & Hq & _ & Hopen & Hsz).
  cbn [init_state heap self cached_open_interfaces length app] in Hl, Hh, Hd, Hopen, Hsz.
  destruct (Hopen 0%nat p1 eq_refl) as (ov & dsv & Hov & Hsrc).
  change (length (heap st0) + 0)%nat with 0%nat in Hov.
  set (full := record_all w (p1 :: rest) st0) in *. clearbody full.
  (* the last acquire evicts p1 *)
  assert (Hlast : _open_gdal_interface w pl (record_all w front st0)
                  = (Ok N, evicted p1 0 ov rest (full))).
  { rewrite Hfull.
    rewrite (open_miss_evicts w pl (record_all w front st0) o p1 rest 0 ov).
    - by rewrite Hh_f, Hlf.
    - rewrite (Hq_f pl Hplf). apply lookup_empty.
    - done.
    - rewrite Hsz_f, Hl_f, length_app. cbn. lia.
    - by rewrite Hl_f.
    - pose proof (Hd 0%nat p1 eq_refl) as H0. by rewrite Hfull in H0.
    - by rewrite Hfull in Hov. }
  assert (Hrun : acquire_seq w (p1 :: rest) st0
                 = (map Ok (seq 0 (S N)),
                    evicted p1 0 ov rest (full))).
  { rewrite Hps at 1. rewrite acquire_seq_app, Hfront. cbn [acquire_seq].
    rewrite Hlast. by rewrite seq_S, map_app. }
  subst rs st. rewrite Hrun in *. cbn [fst snd] in *.
  apply NoDup_cons in Hnd as [Hp1 Hndr].
  split; [done|]. split; [cbn; apply lookup_delete_eq|].
  split; [done|]. split.
  { exists (close ov). split; [|done]. cbn.
    apply list_lookup_insert_eq. by apply lookup_lt_Some in Hov. }
  split.
  { intros i p Hi. assert (Hne : p1 ≠ p).
    { intros ->. apply Hp1. by apply list_elem_of_lookup_2 in Hi. }
    split; [|split].
    - cbn. rewrite lookup_delete_ne by done. apply (Hd (S i) p Hi).
    - cbn. by apply list_elem_of_lookup_2 in Hi.
    - destruct (Hopen (S i) p Hi) as (oi & dsi & Hoi & Hsi).
      exists oi, dsi. split; [|done]. cbn.
      by rewrite list_lookup_insert_ne. }
  destruct (Hall p1) as [o1 Ho1]; [left|].
  pose proof (open_cases w p1 _ Hwf) as Hc.
  assert (Hhl : length (heap (evicted p1 0 ov rest
                               (full))) = S N).
  { cbn. rewrite length_insert, Hh. cbn. lia. }
  pose proof Hhl as Hhl'. cbn [evicted heap] in Hhl'.
  assert (Hnone : cached_open_interfaces_dict
                    (self (evicted p1 0 ov rest
                             (full))) !! p1 = None).
  { cbn. apply lookup_delete_eq. }
  inversion Hc as [r l Hhit|e Hm Hi|o' Hm Hi Hfit|o' v rs' r ov' Hm Hi Hgt Hs Hv Hr];
    try congruence.
  - eexists _, _. split; [reflexivity|]. rewrite ?Hhl, ?Hhl'.
    split; [done|]. split; [apply (ok_seq_fresh 0 (S N))|].
    cbn. rewrite length_app. cbn. lia.
  - eexists _, _. split; [reflexivity|]. rewrite ?Hhl, ?Hhl'.
    split; [done|]. split; [apply (ok_seq_fresh 0 (S N))|].
    cbn. rewrite !length_insert, length_app. cbn. lia.
Qed.

Lemma eviction_of_least_recent_witness :
  let st0 := Sample.fresh 2 in
  let rs := fst (acquire_seq Sample.world4 ["a"; "b"; "c"]%string st0) in
  let st := snd (acquire_seq Sample.world4 ["a"; "b"; "c"]%string st0) in
  rs = [Ok 0; Ok 1; Ok 2]%nat
  ∧ cached_open_interfaces_dict (self st) !! "a"%string = None.
Proof.
  assert (Hnd : NoDup ["a"; "b"; "c"]%string).
  { apply NoDup_ListNoDup. repeat constructor; cbn; intros H;
      repeat (destruct H as [H|H]; [discriminate|]); done. }
  assert (Hall : all_open Sample.world4 ["a"; "b"; "c"]%string).
  { intros p Hp. apply list_elem_of_In in Hp. cbn in Hp.
    destruct Hp as [<-|[<-|[<-|[]]]]; eexists; vm_compute; reflexivity. }
  pose proof (eviction_of_least_recent Sample.world4 2 "a"
                ["b"; "c"]%string "tiles" "tiles/summary.json" false ∅
                eq_refl Hnd Hall) as H.
  cbv zeta in H. destruct H as (H1 & H2 & _).
  split; [exact H1|exact H2].
Defined.

Lemma list_remove_split p l l' :
  list_remove p l = Ok l' ->
  ∃ l1 l2, l = l1 ++ p :: l2 ∧ l' = l1 ++ l2 ∧ p ∉ l1.
Proof.
  revert l'. induction l as [|y l IH]; intros l' H; cbn in H; [discriminate|].
  destruct (decide (p = y)) as [->|Hne].
  - inversion H; subst. exists [], l'. repeat split; auto. apply not_elem_of_nil.
  - destruct (list_remove p l) as [r|] eqn:E; [|discriminate].
    inversion H; subst. destruct (IH r eq_refl) as (l1 & l2 & -> & -> & Hn).
    exists (y :: l1), l2. repeat split; auto.
    apply not_elem_of_cons. by split.
Qed.

(** C3. Acquiring a path that is in the cache returns the object it is
    mapped to, allocates nothing and leaves the mapping alone (whatever the
    files on disk are by then), and moves the path to the end of the recency
    list.  Hence, after [p1], [p2], ... filled the cache and [p1] was
    acquired again, a new path evicts [p2] and keeps [p1]. *)
Theorem reacquire_moves_to_most_recent :
  (∀ (w : World) (st : State) (p : string) (r : nat),
     cache_wf st ->
     cached_open_interfaces_dict (self st) !! p = Some r ->
     ∃ st' l1 l2,
       _open_gdal_interface w p st = (Ok r, st')
       ∧ heap st' = heap st
       ∧ cached_open_interfaces_dict (self st')
         = cached_open_interfaces_dict (self st)
       ∧ cached_open_interfaces (self st) = l1 ++ p :: l2
       ∧ cached_open_interfaces (self st') = l1 ++ l2 ++ [p])
  ∧ (∀ (w : World) (p1 p2 : string) (rest : list string) (pnew : string)
       folder summary cache files,
       NoDup ((p1 :: p2 :: rest) ++ [pnew]) ->
       all_open w ((p1 :: p2 :: rest) ++ [pnew]) ->
       let st0 := init_state folder summary
                    (Z.of_nat (length (p1 :: p2 :: rest))) cache files in
       let st := snd (acquire_seq w ((p1 :: p2 :: rest) ++ [p1; pnew]) st0) in
       cached_open_interfaces_dict (self st) !! p2 = None
       ∧ (p2 ∉ cached_open_interfaces (self st))
       ∧ is_closed (heap st) 1
       ∧ cached_open_interfaces_dict (self st) !! p1 = Some 0%nat
       ∧ (p1 ∈ cached_open_interfaces (self st))
       ∧ is_open (heap st) 0
       ∧ last (cached_open_interfaces (self st)) = Some pnew).
Proof.
  split.
  - intros w st p r Hwf Hd.
    assert (Hin : p ∈ cached_open_interfaces (self st)).
    { apply Hwf. eauto. }
    destruct (list_remove_elem _ _ Hin) as [l Hl].
    destruct (list_remove_split _ _ _ Hl) as (l1 & l2 & H1 & H2 & _).
    eexists _, l1, l2. split; [apply (open_hit w p st r l Hd Hl)|].
    cbn. repeat split; auto. by rewrite H2, <- app_assoc.
  - intros w p1 p2 rest pnew folder summary cache files Hnd Hall st0 st.
    set (ps := p1 :: p2 :: rest) in *.
    apply NoDup_app in Hnd as (Hndp & Hdisj & _).
    assert (Hnew : pnew ∉ ps).
    { intros Hin. apply (Hdisj pnew Hin). left. }
    assert (Hallp : all_open w ps).
    { intros x Hx. apply Hall. apply elem_of_app. by left. }
    destruct (Hall pnew) as [o Ho].
    { apply elem_of_app. right. left. }
    pose proof (acquire_seq_fits w ps st0 Hndp Hallp) as Hfill.
    specialize (Hfill (fun p _ => lookup_empty p) (Z.le_refl _)).
    destruct (record_all_spec w ps st0 Hndp Hallp)
      as (Hl & Hh & Hd & Hq & _ & Hopen & Hsz).
    set (F := record_all w ps st0) in *. clearbody F.
    change (cached_open_interfaces (self st0)) with (@nil string) in Hl.
    change (length (heap st0)) with 0%nat in Hh, Hd, Hopen, Hfill.
    change (open_interfaces_size (self st0)) with (Z.of_nat (length ps)) in Hsz.
    change (cached_open_interfaces_dict (self st0))
      with (∅ : gmap string nat) in Hq.
    cbn [app Nat.add] in Hl, Hh, Hd, Hopen.
    pose proof (Hd 0%nat p1 eq_refl) as Hd1.
    pose proof (Hd 1%nat p2 eq_refl) as Hd2.
    destruct (Hopen 0%nat p1 eq_refl) as (o1 & ds1 & Ho1 & Hs1).
    destruct (Hopen 1%nat p2 eq_refl) as (o2 & ds2 & Ho2 & Hs2).
    apply NoDup_cons in Hndp as [Hp1 Hndp].
    apply NoDup_cons in Hndp as [Hp2 Hndr].
    assert (H12 : p1 ≠ p2). { intros ->. apply Hp1. left. }
    assert (Hn1 : pnew ≠ p1). { intros ->. apply Hnew. left. }
    assert (Hn2 : pnew ≠ p2). { intros ->. apply Hnew. right. left. }
    (* acquiring p1 again *)
    assert (Hrem : list_remove p1 (cached_open_interfaces (self F))
                   = Ok (p2 :: rest)).
    { rewrite Hl. unfold ps. cbn. by rewrite decide_True. }
    pose proof (open_hit w p1 F 0 _ Hd1 Hrem) as Hhit.
    set (F1 := set_self (set_cached_open_interfaces
                           ((p2 :: rest) ++ [p1]) (self F)) F) in *.
    (* acquiring the new path *)
    assert (Hev : _open_gdal_interface w pnew F1
                  = (Ok (length (heap F)),
                     evicted p2 1 o2 (rest ++ [p1] ++ [pnew])
                       (recorded pnew o F1))).
    { apply (open_miss_evicts w pnew F1 o p2 (rest ++ [p1] ++ [pnew]) 1 o2).
      - cbn. rewrite (Hq pnew Hnew). apply lookup_empty.
      - done.
      - cbn. rewrite Hsz. rewrite !length_app. unfold ps. cbn. lia.
      - cbn. by rewrite <- app_assoc.
      - cbn. by rewrite lookup_insert_ne.
      - cbn. by apply lookup_app_l_Some. }
    assert (Hrun : acquire_seq w (ps ++ [p1; pnew]) st0
                   = (map Ok (seq 0 (length ps)) ++ [Ok 0%nat; Ok (length (heap F))],
                      evicted p2 1 o2 (rest ++ [p1] ++ [pnew])
                        (recorded pnew o F1))).
    { rewrite acquire_seq_app, Hfill. cbn [acquire_seq].
      by rewrite Hhit, Hev. }
    subst st. rewrite Hrun. cbn [snd].
    split; [cbn; apply lookup_delete_eq|]. split.
    { cbn. rewrite elem_of_app, !elem_of_cons, elem_of_nil.
      intros [H|[H|[H|[]]]]; [done|by subst|by subst]. }
    split.
    { exists (close o2). split; [|done]. cbn.
      apply list_lookup_insert_eq. rewrite length_app.
      apply lookup_lt_Some in Ho2. lia. }
    split.
    { cbn. rewrite lookup_delete_ne by done.
      by rewrite lookup_insert_ne. }
    split.
    { cbn. apply elem_of_app. right. left. }
    split.
    { exists o1, ds1. split; [|done]. cbn.
      rewrite list_lookup_insert_ne by done. by apply lookup_app_l_Some. }
    cbn. change (rest ++ [p1; pnew]) with (rest ++ [p1] ++ [pnew]).
    rewrite app_assoc. apply last_snoc.
Qed.

Lemma reacquire_moves_to_most_recent_witness :
  let st := snd (acquire_seq Sample.world4 ["a"; "b"; "c"; "a"; "d"]%string
                   (Sample.fresh 3)) in
  cached_open_interfaces_dict (self st) !! "b"%string = None
  ∧ cached_open_interfaces_dict (self st) !! "a"%string = Some 0%nat.
Proof.
  assert (Hnd : NoDup (["a"; "b"; "c"]%string ++ ["d"]%string)).
  { apply NoDup_ListNoDup. repeat constructor; cbn; intros H;
      repeat (destruct H as [H|H]; [discriminate|]); done. }
  assert (Hall : all_open Sample.world4 (["a"; "b"; "c"]%string ++ ["d"]%string)).
  { intros p Hp. apply list_elem_of_In in Hp. cbn in Hp.
    destruct Hp as [<-|[<-|[<-|[<-|[]]]]]; eexists; vm_compute; reflexivity. }
  pose proof (proj2 reacquire_moves_to_most_recent Sample.world4 "a" "b"
                ["c"]%string "d"%string "tiles" "tiles/summary.json"
                false ∅ Hnd Hall) as H.
  cbv zeta in H. destruct H as (H1 & _ & _ & H2 & _).
  split; [exact H1|exact H2].
Defined.

(** ** Exceptions of the public lookup *)




(** ** Building the index *)

Section BuildIndex.

Variable w : World.
Variable index_id : Z.

(** One round of the loop, non-cached mode. *)
Lemma build_index_body_eq k st e :
  cache_all (self st) = false ->
  all_coords (self st) !! k = Some e ->
  build_index_body w index_id k st
  = match indexed index_id (heap st) e with
    | Some it => (Ok tt, added index_id it k st)
    | None =>
        (Raise match e_coords e with
               | None => KeyError
               | Some (_ :: _ :: _ :: _ :: _) => RTreeError
               | Some _ => IndexError
               end,
         set_self (set_all_coords
                     (alter (set_e_index_id (Some index_id)) k
                        (all_coords (self st))) (self st)) st)
    end.
Proof.
  intros Hmode He.
  unfold build_index_body, bind, modify_entry, modify_self, entry, get, lift.
  cbn -[alter]. rewrite list_lookup_alter_eq, He. cbn -[alter].
  unfold indexed.
  destruct (e_coords e) as [[|c0 [|c1 [|c2 [|c3 cs]]]]|]; cbn -[alter];
    try reflexivity.
  rewrite Hmode. cbn -[alter]. rewrite list_lookup_alter_eq, He. cbn -[alter].
  unfold index_insert, bounds_ok.
  destruct (Qle_bool c0 c1 && Qle_bool c2 c3); reflexivity.
Qed.

Lemma build_index_body_inv k st st' :
  cache_all (self st) = false ->
  build_index_body w index_id k st = (Ok tt, st') ->
  ∃ e it, all_coords (self st) !! k = Some e
          ∧ indexed index_id (heap st) e = Some it
          ∧ st' = added index_id it k st.
Proof.
  intros Hmode H.
  destruct (all_coords (self st) !! k) as [e|] eqn:He.
  - rewrite (build_index_body_eq k st e Hmode He) in H.
    destruct (indexed index_id (heap st) e) as [it|] eqn:Hi; [|discriminate].
    inversion H. by exists e, it.
  - unfold build_index_body, bind, modify_entry, modify_self, entry in H.
    cbn -[alter] in H. rewrite list_lookup_alter_eq, He in H. discriminate.
Qed.

(** The whole loop, when it ends without an exception. *)
Lemma build_loop_inv n : ∀ k st st',
  cache_all (self st) = false ->
  for_each (seq k n) (build_index_body w index_id) st = (Ok tt, st') ->
  ∃ items,
    length items = n
    ∧ index (self st') = index (self st) ++ items
    ∧ (∀ j it, items !! j = Some it ->
         ∃ e, all_coords (self st) !! (k + j)%nat = Some e
              ∧ indexed index_id (heap st) e = Some it)
    ∧ (∀ i, all_coords (self st') !! i
            = if decide (k ≤ i < k + n)%nat
              then set_e_index_id (Some index_id)
                     <$> all_coords (self st) !! i
              else all_coords (self st) !! i)
    ∧ heap st' = heap st ∧ disk st' = disk st.
Proof.
  induction n as [|n IH]; intros k st st' Hmode H.
  - cbn in H. inversion H; subst st'. exists [].
    rewrite app_nil_r. repeat split; auto.
    + intros j it Hj. by rewrite lookup_nil in Hj.
    + intros i. case_decide; [lia|done].
  - cbn [seq for_each] in H. unfold bind in H.
    destruct (build_index_body w index_id k st) as [[[]|x] st1] eqn:Hb;
      [|discriminate].
    destruct (build_index_body_inv k st st1 Hmode Hb) as (e & it & He & Hi & ->).
    destruct (IH (S k) (added index_id it k st) st' Hmode H) as (items & Hlen & Hidx & Hit & Hac & Hh & Hd).
    cbn -[alter] in Hidx, Hit, Hac, Hh, Hd.
    exists (it :: items). split; [cbn; lia|].
    split; [by rewrite Hidx, <- app_assoc|].
    split; [|split; [|done]].
    + intros [|j] it' Hj; cbn in Hj.
      * inversion Hj; subst it'. exists e. by rewrite Nat.add_0_r.
      * destruct (Hit j it' Hj) as (e' & He' & Hi').
        rewrite list_lookup_alter_ne in He' by lia.
        exists e'. split; [|done].
        by replace (k + S j)%nat with (S (k + j)) by lia.
    + intros i. rewrite Hac. destruct (decide (i = k)) as [->|Hne].
      * rewrite list_lookup_alter_eq.
        case_decide; [lia|]. case_decide; [done|lia].
      * rewrite list_lookup_alter_ne by done.
        repeat case_decide; try done; lia.
Qed.

Lemma build_index_inv st st' :
  cache_all (self st) = false ->
  (let* s := get in
   for_each (seq 0 (length (all_coords (self s))))
     (build_index_body w index_id)) st = (Ok tt, st') ->
  ∃ items,
    length items = length (all_coords (self st))
    ∧ index (self st') = index (self st) ++ items
    ∧ (∀ j it, items !! j = Some it ->
         ∃ e, all_coords (self st) !! j = Some e
              ∧ indexed index_id (heap st) e = Some it)
    ∧ all_coords (self st')
      = set_e_index_id (Some index_id) <$> all_coords (self st)
    ∧ heap st' = heap st ∧ disk st' = disk st.
Proof.
  intros Hmode H. unfold bind, get in H.
  destruct (build_loop_inv _ 0 st st' Hmode H)
    as (items & Hlen & Hidx & Hit & Hac & Hh & Hd).
  exists items. repeat split; auto.
  apply list_eq. intros i. rewrite Hac, list_lookup_fmap.
  case_decide; [done|].
  rewrite (lookup_ge_None_2 (all_coords (self st)) i) by lia. done.
Qed.

End BuildIndex.

(** C10. In non-cached mode, when the index build ends, one item was added
    per catalog entry, every one under identifier 1, and every catalog entry
    has its ['index_id'] set to 1; with two entries or more the identifiers
    are therefore neither distinct nor the sequence 1, 2, ... *)
Theorem index_ids_all_one (w : World) (st st' : State) :
  cache_all (self st) = false ->
  _build_index w st = (Ok tt, st') ->
  ∃ items,
    index (self st') = index (self st) ++ items
    ∧ length items = length (all_coords (self st))
    ∧ (∀ it, it ∈ items ->
         item_id it = 1 ∧ o_index_id (item_object it) = Some 1)
    ∧ length (all_coords (self st')) = length (all_coords (self st))
    ∧ (∀ e, e ∈ all_coords (self st') -> e_index_id e = Some 1)
    ∧ ((2 <= length (all_coords (self st)))%nat ->
         ~ NoDup (map item_id items)
         ∧ map item_id items ≠ map Z.of_nat (seq 1 (length items))).
Proof.
  intros Hmode H. unfold _build_index in H.
  destruct (build_index_inv w 1 st st' Hmode H)
    as (items & Hlen & Hidx & Hit & Hac & _ & _).
  assert (Hids : ∀ it, it ∈ items ->
                   item_id it = 1 ∧ o_index_id (item_object it) = Some 1).
  { intros it Hin. apply list_elem_of_lookup in Hin as [j Hj].
    destruct (Hit j it Hj) as (e & _ & Hi). unfold indexed in Hi.
    destruct (e_coords e) as [[|c0 [|c1 [|c2 [|c3 cs]]]]|]; try discriminate.
    destruct (bounds_ok _); [|discriminate]. by inversion Hi. }
  exists items. split; [done|]. split; [done|]. split; [done|].
  split; [by rewrite Hac, length_fmap|]. split.
  { intros e He. rewrite Hac in He.
    apply list_elem_of_fmap in He as (e0 & -> & _). done. }
  intros H2. rewrite <- Hlen in H2.
  destruct items as [|a [|b items]]; cbn in H2; try lia.
  destruct (Hids a) as [Ha _]; [left|].
  destruct (Hids b) as [Hb _]; [right; left|].
  cbn. rewrite Ha, Hb. split.
  - intros Hnd. apply NoDup_cons in Hnd as [Hnd _]. apply Hnd. left.
  - discriminate.
Qed.

Lemma index_ids_all_one_witness :
  map item_id (index (self Sample.two_tiles_indexed)) = [1; 1]
  ∧ ~ NoDup (map item_id (index (self Sample.two_tiles_indexed))).
Proof.
  destruct (index_ids_all_one Sample.world Sample.two_tiles
              Sample.two_tiles_indexed eq_refl eq_refl)
    as (items & H1 & H2 & H3 & _ & _ & H6).
  change (index (self Sample.two_tiles)) with (@nil IndexItem) in H1.
  cbn [app] in H1. rewrite H1. split.
  - change (length (all_coords (self Sample.two_tiles))) with 2%nat in H2.
    destruct items as [|a [|b [|c items]]]; try discriminate.
    destruct (H3 a) as [Ha _]; [left|].
    destruct (H3 b) as [Hb _]; [right; left|].
    cbn [map]. by rewrite Ha, Hb.
  - apply H6. cbn. lia.
Defined.

(** ** The catalog and its summary *)




Section Summary.

Variable w : World.
Variable folder : string.



End Summary.







(** * Further properties *)

(** ** One tile, continued *)

Lemma axis_getitem_elem {A} (l : list A) (i : Z) (x : A) :
  axis_getitem l i = Ok x -> x ∈ l.
Proof.
  unfold axis_getitem. cbv zeta.
  destruct (_ || _); [discriminate|].
  destruct (l !! _) as [y|] eqn:E; [|discriminate].
  intros [= <-]. by apply list_elem_of_lookup_2 in E.
Qed.

Lemma axis_getitem_map {A B} (f : A -> B) (l : list A) (i : Z) :
  axis_getitem (map f l) i
  = match axis_getitem l i with Ok x => Ok (f x) | Raise e => Raise e end.
Proof.
  unfold axis_getitem. cbv zeta. rewrite length_map.
  destruct (_ || _); [reflexivity|].
  change (map f l) with (f <$> l). rewrite list_lookup_fmap.
  by destruct (l !! _).
Qed.

Lemma ndarray_getitem_int16 (a : ndarray) (y x : Z) :
  ndarray_getitem (astype_int16 a) y x
  = match ndarray_getitem a y x with
    | Ok v => Ok (int16 v)
    | Raise e => Raise e
    end.
Proof.
  unfold ndarray_getitem, astype_int16. rewrite axis_getitem_map.
  destruct (axis_getitem a y) as [row|e]; [|reflexivity].
  apply axis_getitem_map.
Qed.

Lemma axis_getitem_raises {A} (l : list A) (i : Z) (e : exn) :
  axis_getitem l i = Raise e -> e = IndexError.
Proof.
  unfold axis_getitem. cbv zeta.
  destruct (_ || _); [by intros [= <-]|].
  destruct (lookup _ l); [discriminate|by intros [= <-]].
Qed.

Lemma ndarray_getitem_far (a : ndarray) (n : nat) (y x : Z) :
  width a n ->
  far (length a) y ∨ far n x ->
  ndarray_getitem a y x = Raise IndexError.
Proof.
  intros Hw H. unfold ndarray_getitem.
  destruct (axis_getitem a y) as [row|e] eqn:Hy.
  - destruct H as [H|H].
    + by rewrite (axis_getitem_far a y H) in Hy.
    + apply axis_getitem_far. rewrite (Hw row); [done|].
      by apply axis_getitem_elem in Hy.
  - by rewrite (axis_getitem_raises _ _ _ Hy).
Qed.

Lemma int16_range v : -32768 <= int16 v <= 32767.
Proof.
  unfold int16. pose proof (Z.mod_pos_bound (v + 32768) 65536). lia.
Qed.

Lemma int16_id v : -32768 <= v <= 32767 -> int16 v = v.
Proof.
  intros H. unfold int16. rewrite Z.mod_small; lia.
Qed.

(** X1. A computed line at or past the number of rows, or before minus that
    number, or a computed pixel so placed in the columns, makes both lookups
    return 0. *)
Theorem lookup_far_index_sea_level :
  (∀ (self : GDALInterface) (lat lon xgeo ygeo : Q) t (arr : ndarray) (n : nat),
      coordinate_transform self = Some t ->
      t lon lat = Ok (xgeo, ygeo) ->
      fst (get_points_array self) = Ok (Some arr) ->
      width arr n ->
      far (length arr) (ylin_of (geo_transform_inv self) xgeo ygeo)
      ∨ far n (xpix_of (geo_transform_inv self) xgeo ygeo) ->
      fst (GDALInterface_lookup lat lon self) = 0)
  ∧ (∀ (self : GDALInterface) (lat lon : Q) (arr : ndarray) (n : nat),
      cache_array self = Some arr ->
      width arr n ->
      far (length arr) (ylin_of (geo_transform_inv self) lon lat)
      ∨ far n (xpix_of (geo_transform_inv self) lon lat) ->
      GDALInterface_lookup_cache lat lon self = 0).
Proof.
  split.
  - intros self lat lon xgeo ygeo t arr n Hct Ht Harr Hw Hfar.
    unfold GDALInterface_lookup, lookup_try, bind, get, lift, ret.
    rewrite Hct, Ht. cbn [fst snd].
    destruct (get_points_array self) as [r s] eqn:Hg. cbn in Harr. subst r.
    pose proof (ndarray_getitem_far arr n _ _ Hw Hfar) as Hi.
    unfold xpix_of, ylin_of, geo_to_pixel in Hi. cbn [fst snd] in Hi.
    cbn [getitem2]. by rewrite Hi.
  - intros self lat lon arr n Hc Hw Hfar.
    unfold GDALInterface_lookup_cache, lookup_cache_try. rewrite Hc.
    pose proof (ndarray_getitem_far arr n _ _ Hw Hfar) as Hi.
    unfold xpix_of, ylin_of, geo_to_pixel in Hi. cbn [fst snd] in Hi.
    by rewrite Hi.
Qed.

Lemma lookup_far_index_sea_level_witness :
  fst (GDALInterface_lookup 0 2 Sample.tile) = 0
  ∧ GDALInterface_lookup_cache 0 2 Sample.tile_cached = 0.
Proof.
  assert (Hw : width [[1; 2]; [3; -32768]] 2).
  { intros row Hr. apply list_elem_of_In in Hr.
    destruct Hr as [<-|[<-|[]]]; reflexivity. }
  split.
  - apply (proj1 lookup_far_index_sea_level Sample.tile 0%Q 2%Q 2%Q 0%Q
             (fun lon lat => Ok (lon, lat)) [[1; 2]; [3; -32768]] 2%nat);
      try reflexivity; [exact Hw|].
    left. left. vm_compute. discriminate.
  - apply (proj2 lookup_far_index_sea_level Sample.tile_cached 0%Q 2%Q
             [[1; 2]; [3; -32768]] 2%nat); try reflexivity; [exact Hw|].
    left. left. vm_compute. discriminate.
Defined.

(** X2. A lookup repeated on the object the first one left gives the same
    value and leaves the same object: the band is read once. *)
Theorem lookup_repeatable (self : GDALInterface) (lat lon : Q) :
  GDALInterface_lookup lat lon (snd (GDALInterface_lookup lat lon self))
  = GDALInterface_lookup lat lon self.
Proof.
  unfold GDALInterface_lookup, lookup_try, bind, get, lift, ret,
    get_points_array.
  destruct (coordinate_transform self) as [t|] eqn:Hct.
  2:{ cbn. by rewrite Hct. }
  destruct (t lon lat) as [[xgeo ygeo]|e] eqn:Ht.
  2:{ cbn. rewrite Hct. by rewrite Ht. }
  cbn [fst snd].
  destruct (points_array self) as [v|] eqn:Hp.
  - destruct (getitem2 v _ _) as [s|e] eqn:Hg; cbn [fst snd];
      rewrite Hct, Ht; cbn [fst snd]; rewrite Hp; by rewrite Hg.
  - destruct (src self) as [ds|] eqn:Hs.
    + destruct (getitem2 (ReadAsArray ds) _ _) as [s|e] eqn:Hg; cbn;
        rewrite Hct, Ht; cbn; by rewrite Hg.
    + cbn [fst snd]. rewrite Hct, Ht. cbn [fst snd]. by rewrite Hp, Hs.
Qed.

(** X3. Once the band has been read, closing the tile does not change what
    a lookup returns; a closed tile whose band was never read returns 0. *)
Theorem lookup_after_close (self : GDALInterface) (lat lon : Q) :
  (∀ v, points_array self = Some v ->
        fst (GDALInterface_lookup lat lon (close self))
        = fst (GDALInterface_lookup lat lon self))
  ∧ (points_array self = None ->
     fst (GDALInterface_lookup lat lon (close self)) = 0).
Proof.
  unfold GDALInterface_lookup, lookup_try, bind, get, lift, ret,
    get_points_array, close.
  split.
  - intros v Hp. cbn. rewrite Hp.
    destruct (coordinate_transform self) as [t|]; cbn; [|done].
    destruct (t lon lat) as [[xgeo ygeo]|e]; cbn; [|done].
    by destruct (getitem2 v _ _).
  - intros Hp. cbn. rewrite Hp.
    destruct (coordinate_transform self) as [t|]; cbn; [|done].
    by destruct (t lon lat) as [[xgeo ygeo]|e].
Qed.

Lemma lookup_after_close_witness :
  fst (GDALInterface_lookup (1#2) (1#2) (close Scenario.tile_read)) = 3
  ∧ fst (GDALInterface_lookup (1#2) (1#2) (close Sample.tile)) = 0.
Proof.
  split.
  - rewrite (proj1 (lookup_after_close Scenario.tile_read (1#2) (1#2))
               (Some [[1; 2]; [3; -32768]]) eq_refl).
    reflexivity.
  - exact (proj2 (lookup_after_close Sample.tile (1#2) (1#2)) eq_refl).
Defined.

(** X4. A tile loaded in fully-cached mode only returns values above -32768
    and at most 32767, whatever the band holds. *)
Theorem lookup_cache_in_int16_range (o c : GDALInterface) (lat lon : Q) :
  load_all o = Ok c ->
  -32768 < GDALInterface_lookup_cache lat lon c <= 32767.
Proof.
  unfold load_all. intros H.
  destruct (src o) as [ds|]; [|discriminate].
  destruct (ReadAsArray ds) as [a|]; [|discriminate].
  inversion H; subst c; clear H.
  unfold GDALInterface_lookup_cache, lookup_cache_try. cbn.
  rewrite ndarray_getitem_int16.
  destruct (ndarray_getitem a _ _) as [v|e]; [|unfold SEA_LEVEL; lia].
  pose proof (int16_range v).
  destruct (int16 v =? -32768) eqn:E; [unfold SEA_LEVEL; lia|].
  apply Z.eqb_neq in E. lia.
Qed.

Lemma lookup_cache_in_int16_range_witness :
  -32768 < GDALInterface_lookup_cache (1#2) (1#2) Scenario.wide_tile_cached
  <= 32767
  ∧ GDALInterface_lookup_cache (1#2) (1#2) Scenario.wide_tile_cached = -25536
  ∧ fst (GDALInterface_lookup (1#2) (1#2) Scenario.wide_tile) = 40000.
Proof.
  split; [|split; reflexivity].
  apply (lookup_cache_in_int16_range Scenario.wide_tile
           Scenario.wide_tile_cached (1#2) (1#2)).
  reflexivity.
Defined.

(** X5. For a tile just opened whose reprojection leaves the point as it is
    and whose samples all fit 16 bits, the fully-cached lookup returns what
    the non-cached lookup returns. *)
Theorem cached_lookup_agrees (o c : GDALInterface) (lat lon : Q) t ds a :
  coordinate_transform o = Some t ->
  t lon lat = Ok (lon, lat) ->
  points_array o = None ->
  src o = Some ds ->
  ReadAsArray ds = Some a ->
  fits_int16 a ->
  load_all o = Ok c ->
  GDALInterface_lookup_cache lat lon c = fst (GDALInterface_lookup lat lon o).
Proof.
  intros Hct Ht Hp Hs Ha Hfit Hload.
  unfold load_all in Hload. rewrite Hs, Ha in Hload.
  inversion Hload; subst c; clear Hload.
  unfold GDALInterface_lookup_cache, lookup_cache_try,
    GDALInterface_lookup, lookup_try, bind, get, lift, ret, get_points_array.
  cbn. rewrite Hct. cbn. rewrite Ht. cbn. rewrite Hp, Hs. cbn. rewrite Ha. cbn.
  rewrite ndarray_getitem_int16.
  destruct (ndarray_getitem a _ _) as [v|e] eqn:Hv; [|reflexivity].
  cbn. rewrite int16_id; [reflexivity|].
  unfold ndarray_getitem in Hv.
  destruct (axis_getitem a _) as [row|] eqn:Hrow; [|discriminate].
  apply axis_getitem_elem in Hrow, Hv. by apply (Hfit row v).
Qed.

Lemma cached_lookup_agrees_witness :
  GDALInterface_lookup_cache (3#2) (1#2) Sample.tile_cached
  = fst (GDALInterface_lookup (3#2) (1#2) Sample.tile).
Proof.
  apply (cached_lookup_agrees Sample.tile Sample.tile_cached (3#2) (1#2)
           (fun lon lat => Ok (lon, lat)) Sample.raster [[1; 2]; [3; -32768]]);
    try reflexivity.
  intros row v Hr Hv. apply list_elem_of_In in Hr, Hv.
  destruct Hr as [<-|[<-|[]]]; cbn in Hv;
    repeat (destruct Hv as [<-|Hv]; [lia|]); done.
Defined.

(** ** The cache, continued *)

(** X6. An acquire that raises has changed nothing: the path was not cached
    and the exception is the one raised by opening the file. *)
Theorem failed_open_leaves_cache (w : World) (path : string) (st : State)
  (e : exn) :
  cache_wf st ->
  fst (_open_gdal_interface w path st) = Raise e ->
  snd (_open_gdal_interface w path st) = st
  ∧ cached_open_interfaces_dict (self st) !! path = None
  ∧ GDALInterface_init w path false = Raise e.
Proof.
  intros Hwf H. destruct (open_cases w path st Hwf); cbn in H; try discriminate.
  inversion H; subst. auto.
Qed.

Lemma failed_open_leaves_cache_witness :
  snd (_open_gdal_interface Sample.world_deleted "tiles/a.tif" (Sample.fresh 5))
  = Sample.fresh 5.
Proof.
  apply (failed_open_leaves_cache Sample.world_deleted "tiles/a.tif"
           (Sample.fresh 5) (load_error "tiles/a.tif")).
  - apply init_state_wf.
  - reflexivity.
Defined.

Lemma init_state_open folder summary size cache files :
  cache_open (init_state folder summary size cache files).
Proof.
  split; cbn; intros *; by rewrite lookup_empty.
Qed.

Lemma is_open_app h o r : is_open h r -> is_open (h ++ [o]) r.
Proof.
  intros (x & ds & Hx & Hs). exists x, ds. split; [|done].
  by apply lookup_app_l_Some.
Qed.

Lemma recorded_open w path o st :
  cache_wf st -> cache_open st ->
  cached_open_interfaces_dict (self st) !! path = None ->
  GDALInterface_init w path false = Ok o ->
  cache_open (recorded path o st).
Proof.
  intros (_ & _ & Href) (Hinj & Hop) Hd Hi. split; cbn.
  - intros p q r. destruct (decide (path = p)) as [Ep|Hp],
      (decide (path = q)) as [Eq|Hq].
    + congruence.
    + subst p. rewrite lookup_insert_eq, lookup_insert_ne by done.
      intros [= <-] Hq'. apply Href in Hq'. lia.
    + subst q. rewrite lookup_insert_eq, lookup_insert_ne by done.
      intros Hp' [= <-]. apply Href in Hp'. lia.
    + rewrite !lookup_insert_ne by done. apply Hinj.
  - intros p r. destruct (decide (path = p)) as [->|Hp].
    + rewrite lookup_insert_eq. intros [= <-].
      destruct (init_opens w o p Hi) as [ds Hds].
      exists o, ds. split; [|done].
      rewrite lookup_app_r by lia. by rewrite Nat.sub_diag.
    + rewrite lookup_insert_ne by done. intros H.
      apply is_open_app. by apply (Hop p).
Qed.

Lemma evicted_open victim r ov rest st :
  cache_open st ->
  cached_open_interfaces_dict (self st) !! victim = Some r ->
  cache_open (evicted victim r ov rest st).
Proof.
  intros (Hinj & Hop) Hv. split; cbn.
  - intros p q r'. destruct (decide (victim = p)) as [->|Hp];
      [by rewrite lookup_delete_eq|].
    destruct (decide (victim = q)) as [->|Hq];
      [by rewrite (lookup_delete_eq _ q)|].
    rewrite !lookup_delete_ne by done. apply Hinj.
  - intros p r'. destruct (decide (victim = p)) as [->|Hp];
      [by rewrite lookup_delete_eq|].
    rewrite lookup_delete_ne by done. intros H.
    destruct (Hop p r' H) as (x & ds & Hx & Hs).
    exists x, ds. split; [|done].
    rewrite list_lookup_insert_ne; [done|].
    intros ->. apply Hp. by apply (Hinj victim p r').
Qed.

(** X7. With a capacity of at least one, from a well-formed cache whose
    cached tiles are open, an acquire that returns hands back an open tile
    that is now cached under the path, and the cache is again well formed
    with all its tiles open. *)
Theorem acquire_returns_open_tile (w : World) (path : string)
  (st st' : State) (r : nat) :
  cache_wf st -> cache_open st ->
  1 <= open_interfaces_size (self st) ->
  _open_gdal_interface w path st = (Ok r, st') ->
  is_open (heap st') r
  ∧ cached_open_interfaces_dict (self st') !! path = Some r
  ∧ cache_wf st' ∧ cache_open st'.
Proof.
  intros Hwf Hopen Hsize Heq.
  pose proof (open_preserves_wf w path st Hwf) as Hwf'.
  pose proof (open_cases w path st Hwf) as Hc.
  rewrite Heq in Hc, Hwf'. cbn [snd] in Hwf'.
  inversion Hc as [r0 l Hd Hl|e Hd Hi|o Hd Hi Hfit|o victim rest rv ov Hd Hi Hgt Hs Hv Hr];
    subst.
  - assert (Ho : cache_open
                   (set_self (set_cached_open_interfaces (l ++ [path]) (self st))
                      st)) by exact Hopen.
    split; [by apply (proj2 Hopen path)|]. by split.
  - pose proof (recorded_open w path o st Hwf Hopen Hd Hi) as Ho.
    assert (Hin : cached_open_interfaces_dict (self (recorded path o st))
                    !! path = Some (length (heap st))).
    { cbn. apply lookup_insert_eq. }
    split; [by apply (proj2 Ho path)|]. by split.
  - pose proof (recorded_open w path o st Hwf Hopen Hd Hi) as Ho.
    pose proof (evicted_open victim rv ov rest _ Ho Hv) as Ho'.
    assert (Hne : victim ≠ path).
    { intros ->. destruct (cached_open_interfaces (self st)) as [|x l] eqn:El.
      - cbn in Hgt. lia.
      - cbn in Hs. inversion Hs; subst x.
        destruct Hwf as (_ & Hset & _).
        assert (His : is_Some (cached_open_interfaces_dict (self st) !! path)).
        { apply Hset. rewrite El. left. }
        rewrite Hd in His. by destruct His. }
    assert (Hin : cached_open_interfaces_dict
                    (self (evicted victim rv ov rest (recorded path o st)))
                    !! path = Some (length (heap st))).
    { cbn. rewrite lookup_delete_ne by done. apply lookup_insert_eq. }
    split; [by apply (proj2 Ho' path)|]. by split.
Qed.

Lemma acquire_returns_open_tile_witness :
  is_open (heap (snd (_open_gdal_interface Sample.world "tiles/a.tif"
                        (Sample.fresh 1)))) 0.
Proof.
  apply (acquire_returns_open_tile Sample.world "tiles/a.tif"
           (Sample.fresh 1)
           (snd (_open_gdal_interface Sample.world "tiles/a.tif"
                   (Sample.fresh 1))) 0).
  - apply init_state_wf.
  - apply init_state_open.
  - cbn. lia.
  - reflexivity.
Defined.

(** X8. With a capacity of zero or less, building the catalog of a folder
    whose first raster file opens raises [AttributeError]: the tile comes
    back from the cache already closed.  No summary is written and nothing
    is indexed. *)
Theorem summary_fails_without_capacity (w : World) (folder summary : string)
  (size : Z) (cache : bool) (files : gmap string json)
  (f : string) (rest : list string) (o : GDALInterface) :
  size <= 0 ->
  _all_files w (GDALTileInterface_init folder summary size cache) = f :: rest ->
  GDALInterface_init w (join folder f) false = Ok o ->
  let res := create_summary_json w
               (init_state folder summary size cache files) in
  fst res = Raise AttributeError
  ∧ disk (snd res) = files
  ∧ index (self (snd res)) = []
  ∧ is_closed (heap (snd res)) 0.
Proof.
  intros Hsize Hfiles Hinit res. subst res.
  set (st0 := init_state folder summary size cache files).
  assert (Hscan : scan_tiles w st0
                  = (Raise AttributeError,
                     evicted (join folder f) 0 o []
                       (recorded (join folder f) o st0))).
  { unfold scan_tiles, bind, get.
    change (_all_files w (self st0))
      with (_all_files w (GDALTileInterface_init folder summary size cache)).
    rewrite Hfiles. cbn [for_acc]. unfold bind, summary_body.
    change (tiles_folder (self st0)) with folder.
    unfold bind.
    rewrite (open_miss_evicts w (join folder f) st0 o (join folder f) [] 0 o);
      try done; try (cbn; lia).
    cbn. apply lookup_insert_eq. }
  unfold create_summary_json, bind. rewrite Hscan. cbn.
  repeat split; try done. exists (close o). by split.
Qed.

Lemma summary_fails_without_capacity_witness :
  fst (create_summary_json Sample.world (Sample.fresh 0))
  = Raise AttributeError.
Proof.
  apply (summary_fails_without_capacity Sample.world "tiles"
           "tiles/summary.json" 0 false ∅ "a.tif" [] Sample.tile);
    [lia|reflexivity|reflexivity].
Defined.

(** ** The index and the summary, continued *)

Section BuildIndexFrame.

Variable index_id : Z.

(** In non-cached mode one round of the loop reads no file: it is the same
    in every world, and it leaves the heap, the cache and the disk alone. *)
Lemma build_index_body_frame (w w' : World) k st :
  cache_all (self st) = false ->
  build_index_body w index_id k st = build_index_body w' index_id k st
  ∧ same_cache st (snd (build_index_body w index_id k st))
  ∧ disk (snd (build_index_body w index_id k st)) = disk st.
Proof.
  intros Hmode.
  destruct (all_coords (self st) !! k) as [e|] eqn:He.
  - rewrite !(build_index_body_eq _ index_id k st e Hmode He).
    split; [done|].
    destruct (indexed index_id (heap st) e); by repeat split.
  - assert (Hn : ∀ v, build_index_body v index_id k st
                      = (Raise IndexError,
                         set_self (set_all_coords
                                     (alter (set_e_index_id (Some index_id)) k
                                        (all_coords (self st))) (self st)) st)).
    { intros v.
      unfold build_index_body, bind, modify_entry, modify_self, entry.
      cbn -[alter]. by rewrite list_lookup_alter_eq, He. }
    rewrite !Hn. by repeat split.
Qed.

Lemma build_loop_frame (w w' : World) n : ∀ k st,
  cache_all (self st) = false ->
  for_each (seq k n) (build_index_body w index_id) st
  = for_each (seq k n) (build_index_body w' index_id) st
  ∧ same_cache st (snd (for_each (seq k n) (build_index_body w index_id) st))
  ∧ disk (snd (for_each (seq k n) (build_index_body w index_id) st))
    = disk st.
Proof.
  induction n as [|n IH]; intros k st Hmode.
  - cbn. by repeat split.
  - cbn [seq for_each]. unfold bind.
    destruct (build_index_body_frame w w' k st Hmode) as (Heq & Hc & Hd).
    rewrite <- Heq.
    destruct (build_index_body w index_id k st) as [[[]|x] st1]; [|done].
    cbn [snd] in Hc, Hd.
    assert (Hmode1 : cache_all (self st1) = false).
    { destruct Hc as (_ & _ & _ & _ & Hca). by rewrite Hca. }
    destruct (IH (S k) st1 Hmode1) as (Heq1 & Hc1 & Hd1).
    split; [done|]. split; [|by rewrite Hd1].
    unfold same_cache in *. destruct Hc as (?&?&?&?&?), Hc1 as (?&?&?&?&?).
    repeat split; congruence.
Qed.

End BuildIndexFrame.

(** X9. When the summary file exists and rebuilding is not forced, in
    non-cached mode, [build_summary] opens no raster: its outcome is the same
    whatever the files of the tiles folder are, and it leaves the heap, the
    cache of open tiles and the disk as they were. *)
Theorem build_summary_reuse_opens_nothing (w w' : World) (st : State) :
  cache_all (self st) = false ->
  has_summary_json st = true ->
  build_summary false w st = build_summary false w' st
  ∧ same_cache st (snd (build_summary false w st))
  ∧ disk (snd (build_summary false w st)) = disk st.
Proof.
  intros Hmode Hhas.
  assert (Hread : ∀ v, build_summary false v st = read_summary_json v st).
  { intros v. unfold build_summary, bind, get. by rewrite Hhas. }
  rewrite !Hread.
  unfold read_summary_json, bind, get, read_file, lift.
  destruct (disk st !! summary_file (self st)) as [doc|];
    [|by repeat split].
  destruct (json_load doc) as [l|x]; [|by repeat split].
  unfold modify_self, _build_index, bind, get. cbv zeta.
  set (st1 := set_self (set_all_coords l (self st)) st).
  destruct (build_loop_frame 1 w w' (length (all_coords (self st1))) 0 st1
              Hmode) as (Heq & Hc & Hd).
  split; [exact Heq|]. split; [exact Hc|exact Hd].
Qed.

Lemma build_summary_reuse_opens_nothing_witness :
  build_summary false Sample.world Sample.started
  = build_summary false Sample.world_deleted Sample.started.
Proof.
  apply (build_summary_reuse_opens_nothing Sample.world Sample.world_deleted
           Sample.started); reflexivity.
Defined.

Lemma filter_none {A} (f : A -> bool) (l : list A) :
  (∀ x, x ∈ l -> f x = false) -> List.filter f l = [].
Proof.
  induction l as [|x l IH]; intros H; cbn; [done|].
  rewrite (H x) by left. apply IH. intros y Hy. apply H. by right.
Qed.

(** X10. In non-cached mode, once the index has been built from a catalog,
    a point that lies in the box of no catalog entry is answered 0, and the
    lookup opens nothing. *)
Theorem lookup_outside_catalog (w w' : World) (st st' : State) (lat lng : Q) :
  cache_all (self st) = false ->
  index (self st) = [] ->
  _build_index w st = (Ok tt, st') ->
  (∀ e b, e ∈ all_coords (self st) -> box_of e = Some b ->
          contains b lat lng = false) ->
  GDALTileInterface_lookup w' lat lng st' = (Ok 0, st').
Proof.
  intros Hmode Hempty Hbuild Hout.
  unfold _build_index in Hbuild. cbv zeta in Hbuild.
  destruct (build_index_inv w 1 st st' Hmode Hbuild)
    as (items & _ & Hidx & Hit & _).
  rewrite Hempty in Hidx. cbn [app] in Hidx.
  unfold GDALTileInterface_lookup, bind, get.
  unfold index_intersection. rewrite Hidx, filter_none; [reflexivity|].
  intros it Hin. apply list_elem_of_lookup in Hin as [j Hj].
  destruct (Hit j it Hj) as (e & He & Hi).
  apply list_elem_of_lookup_2 in He.
  unfold indexed in Hi. pose proof (Hout e) as Hb. unfold box_of in Hb.
  destruct (e_coords e) as [[|c0 [|c1 [|c2 [|c3 cs]]]]|]; try discriminate.
  destruct (bounds_ok _); [|discriminate].
  inversion Hi; subst it. cbn [item_bounds]. by apply Hb.
Qed.

Lemma lookup_outside_catalog_witness :
  GDALTileInterface_lookup Sample.world_deleted 5 5 Sample.two_tiles_indexed
  = (Ok 0, Sample.two_tiles_indexed).
Proof.
  apply (lookup_outside_catalog Sample.world Sample.world_deleted
           Sample.two_tiles Sample.two_tiles_indexed 5%Q 5%Q);
    try reflexivity.
  intros e b He Hb. apply list_elem_of_In in He.
  destruct He as [<-|[<-|[]]]; inversion Hb; reflexivity.
Defined.



(** ** The edges of a tile *)





(** ** The resolver and the server *)





(** X15. [do_lookup] answers every location, in order: the i-th result
    carries the latitude and longitude of the i-th location, whether it is
    an elevation or an error. *)
Theorem do_lookup_answers_every_location (w : World)
  (locations : list (Q * Q)) (st : State) :
  ∃ results,
    fst (do_lookup (Locations locations) w st) = Results results
    ∧ map answer_location results = locations.
Proof.
  unfold do_lookup.
  assert (H : map answer_location (fst (get_elevations w locations st))
              = locations).
  { revert st. induction locations as [|[lat lng] rest IH]; intros st;
      cbn [get_elevations]; [done|].
    assert (Ha : answer_location (fst (get_elevation w lat lng st))
                 = (lat, lng)).
    { unfold get_elevation.
      by destruct (GDALTileInterface_lookup w lat lng st) as [[v|e] s]. }
    destruct (get_elevation w lat lng st) as [a st1]. cbn [fst] in Ha.
    specialize (IH st1).
    destruct (get_elevations w rest st1) as [answers st2].
    cbn in IH |- *. by rewrite Ha, IH. }
  destruct (get_elevations w locations st) as [results st'].
  exists results. by split.
Qed.
